(** * Contact book with a birthday query (task1.py)

    A shallow embedding of [task1.py]: the [Phone] validation, the
    [Record] update operations, the [AddressBook] dictionary and the
    weekly birthday query [get_birthdays_per_week], together with the parts
    of Python's [str], [re] and [datetime] that the program calls.

    Conventions.
    - A Python [str] is a sequence of code points.  The code points
      U+0000..U+00FF are modelled, as the 8-bit characters of [string].
    - A Python exception is a value of [exn]; a computation that may raise
      returns [exn + A].
    - A [datetime.date] is a [date] record; Python only ever builds dates
      that satisfy [date_valid].
    - The system clock is an oracle [nat -> date]: its [k]-th reading. *)

From Stdlib Require Import ZArith Lia Bool List Ascii String.
From stdpp Require Import base option list gmap strings.

Local Open Scope Z_scope.

(** ** Exceptions *)

Inductive exn : Type :=
  | InvalidPhoneNumberError   (* class InvalidPhoneNumberError(ValueError) *)
  | ValueError
  | KeyError
  | OverflowError.

(** [except ValueError] also catches the subclass. *)
Definition is_ValueError (e : exn) : bool :=
  match e with
  | InvalidPhoneNumberError | ValueError => true
  | KeyError | OverflowError => false
  end.

Definition result (A : Type) : Type := (exn + A)%type.

Definition ok {A} (a : A) : result A := inr a.
Definition raise {A} (e : exn) : result A := inl e.

Definition rbind {A B} (m : result A) (f : A -> result B) : result B :=
  match m with
  | inl e => inl e
  | inr a => f a
  end.

(** ** Python strings *)

Module PyStr.

Definition code (c : ascii) : Z := Z.of_N (N_of_ascii c).

(** ASCII ['0'..'9']. *)
Definition is_ascii_digit (c : ascii) : bool :=
  (48 <=? code c) && (code c <=? 57).

(** [str.isdigit] on one character: Numeric_Type is Digit or Decimal.
    Below U+0100 these are ['0'..'9'] and the superscripts U+00B2,
    U+00B3 and U+00B9. *)
Definition char_isdigit (c : ascii) : bool :=
  is_ascii_digit c
  || (code c =? 178) || (code c =? 179) || (code c =? 185).

(** [\d] of [re] and the digits [int] reads: category Nd, which below
    U+0100 is ['0'..'9']. *)
Definition char_isdecimal (c : ascii) : bool := is_ascii_digit c.

Fixpoint all_chars (p : ascii -> bool) (s : string) : bool :=
  match s with
  | EmptyString => true
  | String c s' => p c && all_chars p s'
  end.

(** [len(s)] *)
Definition len (s : string) : Z := Z.of_nat (String.length s).

(** [s.isdigit()]: false on the empty string. *)
Definition isdigit (s : string) : bool :=
  match s with
  | EmptyString => false
  | _ => all_chars char_isdigit s
  end.

(** A string of decimal digits ['0'..'9']. *)
Definition decimal_digits (s : string) : bool := all_chars is_ascii_digit s.

Definition digit_value (c : ascii) : Z := code c - 48.

Fixpoint int_digits (acc : Z) (s : string) : Z :=
  match s with
  | EmptyString => acc
  | String c s' => int_digits (10 * acc + digit_value c) s'
  end.

Fixpoint lstrip_spaces (s : string) : string :=
  match s with
  | String " " s' => lstrip_spaces s'
  | _ => s
  end.

(** [int(s)] for the strings the date parser hands over: blanks in
    front, then decimal digits. *)
Definition int (s : string) : Z := int_digits 0 (lstrip_spaces s).

End PyStr.

(** ** datetime.date *)

Module Datetime.

Record date : Type := mkdate { year : Z; month : Z; day : Z }.

Definition MINYEAR : Z := 1.
Definition MAXYEAR : Z := 9999.

(** [_is_leap] *)
Definition is_leap (y : Z) : bool :=
  (y mod 4 =? 0) && (negb (y mod 100 =? 0) || (y mod 400 =? 0)).

(** [_DAYS_IN_MONTH] *)
Definition DAYS_IN_MONTH (m : Z) : Z :=
  match m with
  | 1 => 31 | 2 => 28 | 3 => 31 | 4 => 30 | 5 => 31 | 6 => 30
  | 7 => 31 | 8 => 31 | 9 => 30 | 10 => 31 | 11 => 30 | 12 => 31
  | _ => -1
  end.

(** [_DAYS_BEFORE_MONTH] *)
Definition DAYS_BEFORE_MONTH (m : Z) : Z :=
  match m with
  | 1 => 0 | 2 => 31 | 3 => 59 | 4 => 90 | 5 => 120 | 6 => 151
  | 7 => 181 | 8 => 212 | 9 => 243 | 10 => 273 | 11 => 304 | 12 => 334
  | _ => -1
  end.

Definition Z_of_bool (b : bool) : Z := if b then 1 else 0.

(** [_days_before_year] *)
Definition days_before_year (y : Z) : Z :=
  let y := y - 1 in
  y * 365 + y / 4 - y / 100 + y / 400.

(** [_days_in_month] *)
Definition days_in_month (y m : Z) : Z :=
  if (m =? 2) && is_leap y then 29 else DAYS_IN_MONTH m.

(** [_days_before_month] *)
Definition days_before_month (y m : Z) : Z :=
  DAYS_BEFORE_MONTH m + Z_of_bool ((2 <? m) && is_leap y).

(** [_ymd2ord] *)
Definition ymd2ord (y m d : Z) : Z :=
  days_before_year y + days_before_month y m + d.

Definition DI400Y : Z := 146097.
Definition DI100Y : Z := 36524.
Definition DI4Y : Z := 1461.
Definition MAXORDINAL : Z := 3652059.

(** The end of [_ord2ymd]: the month and the day of the month of day
    [n] (counted from 0) of a year. *)
Definition ord2md (n : Z) (leapyear : bool) : Z * Z :=
  let m := Z.shiftr (n + 50) 5 in
  let preceding := DAYS_BEFORE_MONTH m + Z_of_bool ((2 <? m) && leapyear) in
  let '(m, preceding) :=
    if n <? preceding   (* estimate is too large *)
    then (m - 1,
          preceding
          - (DAYS_IN_MONTH (m - 1) + Z_of_bool ((m - 1 =? 2) && leapyear)))
    else (m, preceding) in
  (m, n - preceding + 1).

(** [_ord2ymd] *)
Definition ord2ymd (n : Z) : date :=
  let n := n - 1 in
  let n400 := n / DI400Y in
  let n := n mod DI400Y in
  let y := n400 * 400 + 1 in
  let n100 := n / DI100Y in
  let n := n mod DI100Y in
  let n4 := n / DI4Y in
  let n := n mod DI4Y in
  let n1 := n / 365 in
  let n := n mod 365 in
  let y := y + n100 * 100 + n4 * 4 + n1 in
  if (n1 =? 4) || (n100 =? 4) then mkdate (y - 1) 12 31
  else
    let leapyear := (n1 =? 3) && (negb (n4 =? 24) || (n100 =? 3)) in
    let '(m, d) := ord2md n leapyear in
    mkdate y m d.

(** What [ord2md] must return for day [n] of a year: a month, a day of
    that month, and [n + 1] days into the year. *)
Definition ord2md_ok (n : Z) (leap : bool) : bool :=
  let '(m, d) := ord2md n leap in
  (1 <=? m) && (m <=? 12) && (1 <=? d)
  && (d <=? DAYS_IN_MONTH m + Z_of_bool ((m =? 2) && leap))
  && (DAYS_BEFORE_MONTH m + Z_of_bool ((2 <? m) && leap) + d =? n + 1).

(** [_check_date_fields]: what every constructed date satisfies. *)
Definition check_date_fields (y m d : Z) : bool :=
  (MINYEAR <=? y) && (y <=? MAXYEAR)
  && (1 <=? m) && (m <=? 12)
  && (1 <=? d) && (d <=? days_in_month y m).

Definition date_valid (d : date) : Prop :=
  check_date_fields (year d) (month d) (day d) = true.

(** [date(y, m, d)] *)
Definition date_new (y m d : Z) : result date :=
  if check_date_fields y m d then ok (mkdate y m d) else raise ValueError.

(** [d.replace(year=y)] *)
Definition replace_year (d : date) (y : Z) : result date :=
  date_new y (month d) (day d).

(** [d.toordinal()] *)
Definition toordinal (d : date) : Z := ymd2ord (year d) (month d) (day d).

(** [date.fromordinal(n)] *)
Definition fromordinal (n : Z) : date := ord2ymd n.

(** [d.weekday()]: Monday is 0, Sunday is 6. *)
Definition weekday (d : date) : Z := (toordinal d + 6) mod 7.

(** [d + timedelta(days=n)] *)
Definition add_days (d : date) (n : Z) : result date :=
  let o := toordinal d + n in
  if (0 <? o) && (o <=? MAXORDINAL) then ok (fromordinal o)
  else raise OverflowError.

(** [(d1 - d2).days] *)
Definition sub_days (d1 d2 : date) : Z := toordinal d1 - toordinal d2.

(** [d1 <= d2]: the order of the (year, month, day) triples. *)
Definition date_le (d1 d2 : date) : bool :=
  (year d1 <? year d2)
  || ((year d1 =? year d2)
      && ((month d1 <? month d2)
          || ((month d1 =? month d2) && (day d1 <=? day d2)))).

End Datetime.

(** ** The regular expressions of [re] that [_strptime] builds *)

Module Re.

Inductive regex : Type :=
  | Chr (c : ascii)                 (* a literal character *)
  | Range (lo hi : ascii)           (* [lo-hi] *)
  | Digit                           (* \d *)
  | Cat (r1 r2 : regex)             (* r1 r2 *)
  | Alt (r1 r2 : regex)             (* r1|r2, tried left to right *)
  | Group (name : string) (r : regex).  (* (?P<name>r) *)

Definition groups : Type := list (string * string).

Definition consumed (s rest : string) : string :=
  String.substring 0 (String.length s - String.length rest) s.

(** Backtracking matcher: [k] is what must still match after [r]; an
    alternative is abandoned when [k] fails on what it leaves.
    [_strptime] compiles its patterns with IGNORECASE; the patterns here
    hold digits, a dot and a blank only, which have no other case. *)
Fixpoint run {R : Type} (r : regex) (s : string) (g : groups)
    (k : string -> groups -> option R) : option R :=
  match r with
  | Chr c =>
      match s with
      | String c' s' => if Ascii.eqb c c' then k s' g else None
      | EmptyString => None
      end
  | Range lo hi =>
      match s with
      | String c' s' =>
          if (PyStr.code lo <=? PyStr.code c') && (PyStr.code c' <=? PyStr.code hi)
          then k s' g else None
      | EmptyString => None
      end
  | Digit =>
      match s with
      | String c' s' => if PyStr.char_isdecimal c' then k s' g else None
      | EmptyString => None
      end
  | Cat r1 r2 => run r1 s g (fun s' g' => run r2 s' g' k)
  | Alt r1 r2 =>
      match run r1 s g k with
      | Some x => Some x
      | None => run r2 s g k
      end
  | Group name r1 =>
      run r1 s g (fun s' g' => k s' ((name, consumed s s') :: g'))
  end.

(** [re.match(r, s)]: anchored at the start; returns what is left after
    the match ([found.end()] is the length of the rest taken off) and
    the named groups. *)
Definition match_ (r : regex) (s : string) : option (string * groups) :=
  run r s [] (fun rest g => Some (rest, g)).

Fixpoint group (g : groups) (name : string) : string :=
  match g with
  | [] => EmptyString
  | (n, v) :: g' => if String.eqb n name then v else group g' name
  end.

End Re.

(** ** datetime.strptime(s, "%d.%m.%Y").date() *)

Module Strptime.
Import Re.

(** [%d]: (?P<d>3[0-1]|[1-2]\d|0[1-9]|[1-9]| [1-9]) *)
Definition directive_d : regex :=
  Group "d"
    (Alt (Cat (Chr "3") (Range "0" "1"))
    (Alt (Cat (Range "1" "2") Digit)
    (Alt (Cat (Chr "0") (Range "1" "9"))
    (Alt (Range "1" "9")
         (Cat (Chr " ") (Range "1" "9")))))).

(** [%m]: (?P<m>1[0-2]|0[1-9]|[1-9]) *)
Definition directive_m : regex :=
  Group "m"
    (Alt (Cat (Chr "1") (Range "0" "2"))
    (Alt (Cat (Chr "0") (Range "1" "9"))
         (Range "1" "9"))).

(** [%Y]: (?P<Y>\d\d\d\d) *)
Definition directive_Y : regex :=
  Group "Y" (Cat Digit (Cat Digit (Cat Digit Digit))).

(** The format "%d.%m.%Y"; the dots are escaped, so they are literal. *)
Definition format_regex : regex :=
  Cat directive_d (Cat (Chr ".") (Cat directive_m (Cat (Chr ".") directive_Y))).

Definition strptime (s : string) : result Datetime.date :=
  match match_ format_regex s with
  | None => raise ValueError            (* does not match format *)
  | Some (rest, g) =>
      match rest with
      | String _ _ => raise ValueError  (* unconverted data remains *)
      | EmptyString =>
          Datetime.date_new (PyStr.int (group g "Y"))
                            (PyStr.int (group g "m"))
                            (PyStr.int (group g "d"))
      end
  end.

End Strptime.

(** ** class Phone, class Record *)

(** [Phone(value)]: the validated value, or the exception of [__init__]. *)
Definition Phone (value : string) : result string :=
  if negb (PyStr.len value =? 10) || negb (PyStr.isdigit value)
  then raise InvalidPhoneNumberError
  else ok value.

Record ContactRecord : Type := mkRecord {
  name : string;
  phone : string;
  birthday : option Datetime.date
}.

(** [Record(name, phone)] *)
Definition Record_init (name phone : string) : result ContactRecord :=
  rbind (Phone phone) (fun p => ok (mkRecord name p None)).

(** A method of [Record] runs on the object [self] and leaves it in a new
    state, also when it raises. *)
Definition method (A : Type) : Type := ContactRecord -> result A * ContactRecord.

(** [self.birthday = datetime.strptime(birthday, "%d.%m.%Y").date()] *)
Definition add_birthday (birthday : string) : method unit :=
  fun self =>
    match Strptime.strptime birthday with
    | inl e => (raise e, self)
    | inr d => (ok tt, mkRecord (name self) (phone self) (Some d))
    end.

(** [self.phone = Phone(new_phone_number)] *)
Definition update_phone (new_phone_number : string) : method unit :=
  fun self =>
    match Phone new_phone_number with
    | inl e => (raise e, self)
    | inr p => (ok tt, mkRecord (name self) p (birthday self))
    end.

(** ** dict: keyed by str, kept in insertion order *)

Module Dict.

Abbreviation t V := (list (string * V)).

(** [d.get(k)] *)
Fixpoint get {V} (k : string) (d : t V) : option V :=
  match d with
  | [] => None
  | (k', v) :: d' => if String.eqb k' k then Some v else get k d'
  end.

(** [d[k] = v]: an existing key keeps its place. *)
Fixpoint set {V} (k : string) (v : V) (d : t V) : t V :=
  match d with
  | [] => [(k, v)]
  | (k', v') :: d' =>
      if String.eqb k' k then (k', v) :: d' else (k', v') :: set k v d'
  end.

(** what [d.pop(k)] leaves *)
Fixpoint remove {V} (k : string) (d : t V) : t V :=
  match d with
  | [] => []
  | (k', v') :: d' =>
      if String.eqb k' k then d' else (k', v') :: remove k d'
  end.

Definition keys {V} (d : t V) : list string := fst <$> d.

(** number of entries stored under [k] *)
Definition count {V} (k : string) (d : t V) : nat :=
  length (List.filter (fun kv => String.eqb kv.1 k) d).

End Dict.

(** ** class AddressBook(UserDict) *)

Module AddressBook.

(** [self.data] *)
Abbreviation t := (Dict.t ContactRecord).

(** [AddressBook()] *)
Definition empty : t := [].

(** [self.data[record.name.value] = record] *)
Definition add_record (record : ContactRecord) (self : t) : result unit * t :=
  (ok tt, Dict.set (name record) record self).

(** [return self[name]] *)
Definition find (name : string) (self : t) : result ContactRecord :=
  match Dict.get name self with
  | Some r => ok r
  | None => raise KeyError
  end.

(** [self.data.pop(name)] *)
Definition delete (name : string) (self : t) : result unit * t :=
  match Dict.get name self with
  | Some _ => (ok tt, Dict.remove name self)
  | None => (raise KeyError, self)
  end.

(** [record = book.find(name); record.f(...)]: the record found is the
    object the book holds, so what the method does to it shows in the
    book, under the same key. *)
Definition on_record (name : string) (f : method unit) (self : t)
    : result unit * t :=
  match find name self with
  | inl e => (raise e, self)
  | inr r =>
      let '(res, r') := f r in
      (res, Dict.set name r' self)
  end.

End AddressBook.

(** ** AddressBook.get_birthdays_per_week *)

Module Query.
Import Datetime.

(** What the query can touch: the book it is a method of, and the system
    clock, of which [clock_reads] readings have been taken so far. *)
Record World : Type := mkWorld {
  book : AddressBook.t;
  clock_reads : nat
}.

Definition M (A : Type) : Type := World -> result A * World.

Definition ret {A} (a : A) : M A := fun w => (ok a, w).

Definition bind {A B} (m : M A) (f : A -> M B) : M B :=
  fun w =>
    match m w with
    | (inl e, w') => (inl e, w')
    | (inr a, w') => f a w'
    end.

Definition lift {A} (r : result A) : M A := fun w => (r, w).

Notation "'do' x <- m ; k" := (bind m (fun x => k))
  (at level 10, x name, m at level 100, k at level 200).

(** [upcoming_birthdays]: a [defaultdict(list)] keyed by weekday. *)
Abbreviation Buckets := (gmap Z (list string)).

(** [upcoming_birthdays[k].append(v)] *)
Definition append (ub : Buckets) (k : Z) (v : string) : Buckets :=
  <[k := default [] (ub !! k) ++ [v]]> ub.

(** The [try] block of lines 68-73; [inl ValueError] is what the
    [except ValueError] clause catches. *)
Definition next_birthday (today birthday : date) : result date :=
  rbind (replace_year birthday (year today)) (fun next_birthday =>
    if date_le next_birthday today
    then replace_year next_birthday (year next_birthday + 1)
    else ok next_birthday).

(** Lines 79-84. *)
Definition date_to_congratulate (next_birthday : date) : result date :=
  let date_to_congratulate := next_birthday in
  if (weekday date_to_congratulate =? 5) || (weekday date_to_congratulate =? 6)
  then
    let days_until_monday := 7 - weekday next_birthday in
    add_days date_to_congratulate days_until_monday
  else ok date_to_congratulate.

Section Clock.
(** [clock k]: the date the system clock shows at its [k]-th reading. *)
Variable clock : nat -> date.

(** [datetime.today().date()] *)
Definition datetime_today : M date :=
  fun w => (ok (clock (clock_reads w)), mkWorld (book w) (S (clock_reads w))).

(** [self.data.items()] *)
Definition data_items : M (list (string * ContactRecord)) :=
  fun w => (ok (book w), w).

(** The body of the [for] loop, lines 61-92. *)
Definition loop_body (name : string) (record : ContactRecord)
    (upcoming_birthdays : Buckets) : M Buckets :=
  match birthday record with
  | None => ret upcoming_birthdays
  | Some birthday =>
      do today <- datetime_today;
      match next_birthday today birthday with
      | inl e =>
          if is_ValueError e then ret upcoming_birthdays else lift (raise e)
      | inr next_birthday =>
          do date_to_congratulate <- lift (date_to_congratulate next_birthday);
          if 7 <? sub_days date_to_congratulate today
          then ret upcoming_birthdays
          else
            let weekday_to_congratulate := weekday date_to_congratulate in
            ret (append upcoming_birthdays weekday_to_congratulate name)
      end
  end.

Fixpoint for_items (items : list (string * ContactRecord))
    (upcoming_birthdays : Buckets) : M Buckets :=
  match items with
  | [] => ret upcoming_birthdays
  | (name, record) :: items' =>
      do upcoming_birthdays <- loop_body name record upcoming_birthdays;
      for_items items' upcoming_birthdays
  end.

Definition get_birthdays_per_week : M Buckets :=
  do items <- data_items;
  for_items items ∅.

End Clock.

(** The names in the bucket of a weekday; an absent key has none. *)
Definition bucket (ub : Buckets) (wd : Z) : list string :=
  default [] (ub !! wd).

(** The names the query reports, over all buckets. *)
Definition in_some_bucket (n : string) (ub : Buckets) : Prop :=
  exists wd, n ∈ bucket ub wd.

(** How many clock readings the loop takes over [items]: one for each
    record with a birthday. *)
Fixpoint readings (items : list (string * ContactRecord)) : nat :=
  match items with
  | [] => 0
  | (_, record) :: items' =>
      match birthday record with
      | None => readings items'
      | Some _ => S (readings items')
      end
  end.

End Query.

(** ** The histories of an address book *)

(** Every way the program changes the book: a record built by [Record]
    is added, an entry is deleted, or the record found under a name is
    updated in place. *)
Inductive reachable : AddressBook.t -> Prop :=
  | reach_empty : reachable AddressBook.empty
  | reach_add b n p r :
      reachable b -> Record_init n p = ok r ->
      reachable (AddressBook.add_record r b).2
  | reach_delete b n :
      reachable b -> reachable (AddressBook.delete n b).2
  | reach_update_phone b n p :
      reachable b -> reachable (AddressBook.on_record n (update_phone p) b).2
  | reach_add_birthday b n s :
      reachable b -> reachable (AddressBook.on_record n (add_birthday s) b).2.

(** What a record must satisfy to be kept under the key [k]: it carries
    that name, and its birthday is a date Python can build. *)
Definition entry_ok (k : string) (r : ContactRecord) : Prop :=
  name r = k /\ forall d, birthday r = Some d -> Datetime.date_valid d.

(** No name is filed twice, and every entry is in order. *)
Definition book_ok (b : AddressBook.t) : Prop :=
  NoDup (Dict.keys b) /\ forall k r, (k, r) ∈ b -> entry_ok k r.

(** ** Dates written as dd.mm.yyyy *)

Module DateString.

(** The character of a digit 0..9. *)
Definition digit_char (k : Z) : ascii := ascii_of_N (Z.to_N (48 + k)).

Definition two_digits (n : Z) : string :=
  String (digit_char (n / 10)) (String (digit_char (n mod 10)) EmptyString).

Definition four_digits (n : Z) : string :=
  String (digit_char (n / 1000))
    (String (digit_char (n / 100 mod 10))
       (String (digit_char (n / 10 mod 10))
          (String (digit_char (n mod 10)) EmptyString))).

(** Day, month and year with leading zeros, dots between. *)
Definition dmY (d : Datetime.date) : string :=
  (two_digits (Datetime.day d) ++ "." ++ two_digits (Datetime.month d)
   ++ "." ++ four_digits (Datetime.year d))%string.

End DateString.

(** ** What the loop computes, record by record *)

Module QuerySpec.
Import Datetime Query.

(** The weekday under which a record with this birthday is reported when
    the clock shows [today]; [None] when the record is skipped. *)
Definition congratulation_weekday (today birthday : date) : option Z :=
  match next_birthday today birthday with
  | inl _ => None
  | inr nb =>
      match date_to_congratulate nb with
      | inl _ => None
      | inr dtc => if 7 <? sub_days dtc today then None else Some (weekday dtc)
      end
  end.

(** The buckets after the loop over [items], started with [ub] when [k]
    clock readings have been taken. *)
Fixpoint upcoming (clock : nat -> date) (k : nat)
    (items : list (string * ContactRecord)) (ub : Buckets) : Buckets :=
  match items with
  | [] => ub
  | (n, r) :: items' =>
      match birthday r with
      | None => upcoming clock k items' ub
      | Some b =>
          upcoming clock (S k) items'
            (match congratulation_weekday (clock k) b with
             | Some wd => append ub wd n
             | None => ub
             end)
      end
  end.

(** The year of the last [replace] of the [try] block. *)
Definition candidate_year (today birthday : date) : Z :=
  match replace_year birthday (year today) with
  | inl _ => year today
  | inr nb => if date_le nb today then year nb + 1 else year nb
  end.

End QuerySpec.

(** ** A small address book *)

Module Scenario.
Import Datetime.
Local Open Scope string_scope.

Definition monday : date := mkdate 2024 6 10.
Definition sunday : date := mkdate 2024 6 9.

Definition ann : ContactRecord := mkRecord "Ann" "0501234567" (Some (mkdate 1990 6 15)).
Definition bob : ContactRecord := mkRecord "Bob" "0507654321" (Some (mkdate 1985 6 18)).
Definition cara : ContactRecord := mkRecord "Cara" "0631112233" (Some (mkdate 2000 6 10)).
Definition dan : ContactRecord := mkRecord "Dan" "0670000001" (Some (mkdate 2000 2 29)).
Definition eve : ContactRecord := mkRecord "Eve" "0930000002" None.

Definition book0 : AddressBook.t :=
  [("Ann", ann); ("Bob", bob); ("Cara", cara); ("Dan", dan); ("Eve", eve)].

Definition w0 : Query.World := Query.mkWorld book0 0.

(** A clock that shows Monday 10 June 2024 all through the query. *)
Definition noon : nat -> date := fun _ => monday.

(** A clock that shows Sunday 9 June 2024 all through the query. *)
Definition sunday_noon : nat -> date := fun _ => sunday.

(** A query started just before midnight: the first reading is Monday
    10 June 2024, the later ones Tuesday 11 June. *)
Definition midnight : nat -> date :=
  fun k => match k with O => monday | S _ => mkdate 2024 6 11 end.

(** Monday for the first four readings, Tuesday after. *)
Definition late_midnight : nat -> date :=
  fun k => if (k <? 4)%nat then monday else mkdate 2024 6 11.

(** Ten times SUPERSCRIPT TWO, U+00B2. *)
Definition superscript_phone : string :=
  let c : ascii := "178"%char in
  String c (String c (String c (String c (String c
    (String c (String c (String c (String c (String c EmptyString))))))))).

(** The book after [add Ann 0501234567] on an empty book. *)
Definition book1 : AddressBook.t :=
  (AddressBook.add_record (mkRecord "Ann" "0501234567" None)
     AddressBook.empty).2.

End Scenario.

(** ** The ways to write a day and a month that the date parser reads *)

Module DateForms.
Import DateString.




End DateForms.

(** ** More of Python's str: split, strip, lower, join, format *)

Module PyText.

(** [c.isspace()]; below U+0100 the white space is U+0009..U+000D,
    U+001C..U+0020, U+0085 and U+00A0. *)
Definition isspace (c : ascii) : bool :=
  let n := PyStr.code c in
  ((9 <=? n) && (n <=? 13)) || ((28 <=? n) && (n <=? 32))
  || (n =? 133) || (n =? 160).

(** [s.split()]: the maximal runs of characters that are not white space;
    [cur] is the run being read. *)
Fixpoint split_from (cur : string) (s : string) : list string :=
  match s with
  | EmptyString =>
      match cur with
      | EmptyString => []
      | _ => [cur]
      end
  | String c s' =>
      if isspace c
      then match cur with
           | EmptyString => split_from EmptyString s'
           | _ => cur :: split_from EmptyString s'
           end
      else split_from (cur ++ String c EmptyString) s'
  end.

Definition split (s : string) : list string := split_from EmptyString s.

(** [s.lstrip()], [s.rstrip()], [s.strip()] *)
Fixpoint lstrip (s : string) : string :=
  match s with
  | EmptyString => EmptyString
  | String c s' => if isspace c then lstrip s' else s
  end.

Fixpoint rstrip (s : string) : string :=
  match s with
  | EmptyString => EmptyString
  | String c s' =>
      match rstrip s' with
      | EmptyString => if isspace c then EmptyString else String c EmptyString
      | r => String c r
      end
  end.

Definition strip (s : string) : string := rstrip (lstrip s).

(** [c.lower()]: below U+0100 the capitals are A..Z, U+00C0..U+00D6 and
    U+00D8..U+00DE, each 32 below its small letter. *)
Definition lower_char (c : ascii) : ascii :=
  let n := PyStr.code c in
  if ((65 <=? n) && (n <=? 90)) || ((192 <=? n) && (n <=? 214))
     || ((216 <=? n) && (n <=? 222))
  then ascii_of_N (Z.to_N (n + 32))
  else c.

Fixpoint lower (s : string) : string :=
  match s with
  | EmptyString => EmptyString
  | String c s' => String (lower_char c) (lower s')
  end.

(** [sep.join(l)] *)
Fixpoint join (sep : string) (l : list string) : string :=
  match l with
  | [] => EmptyString
  | [x] => x
  | x :: l' => (x ++ sep ++ join sep l')%string
  end.

Fixpoint spaces (n : nat) : string :=
  match n with
  | O => EmptyString
  | S n' => String " " (spaces n')
  end.

(** ["{:^w}".format(s)]: [s] centred in [w] columns, the odd blank on the
    right; a longer [s] is left as it is. *)
Definition center (w : nat) (s : string) : string :=
  let total := (w - String.length s)%nat in
  let left := (total / 2)%nat in
  (spaces left ++ s ++ spaces (total - left))%string.

(** [str(d)] of a date: [d.isoformat()], "%04d-%02d-%02d". *)
Definition isoformat (d : Datetime.date) : string :=
  (DateString.four_digits (Datetime.year d) ++ "-"
   ++ DateString.two_digits (Datetime.month d) ++ "-"
   ++ DateString.two_digits (Datetime.day d))%string.

End PyText.

(** ** The command handlers and the command loop *)

Module Cli.
Import Query.
Local Open Scope string_scope.

(** What a handler returns: a message, a date or [None]. *)
Inductive value : Type :=
  | VStr (s : string)
  | VDate (d : Datetime.date)
  | VNone.

(** [str(v)], what [print(v)] writes. *)
Definition str (v : value) : string :=
  match v with
  | VStr s => s
  | VDate d => PyText.isoformat d
  | VNone => "None"
  end.

(** A handler gets the arguments and the book, which it may change. *)
Abbreviation handler :=
  (list string -> AddressBook.t -> result value * AddressBook.t).

(** The decorator [input_error]: the three [except] clauses, in their
    order; any other exception goes on. *)
Definition input_error (func : handler) : handler :=
  fun args book =>
    match func args book with
    | (inl InvalidPhoneNumberError, book') =>
        (ok (VStr "Invalid phone number."), book')
    | (inl ValueError, book') => (ok (VStr "Invalid parameters."), book')
    | (inl KeyError, book') =>
        (ok (VStr "A contact with that name doesn't exist."), book')
    | r => r
    end.

(** [parse_input]: [cmd, *args = user_input.split()] raises ValueError
    when there is no word. *)
Definition parse_input (user_input : string) : result (string * list string) :=
  match PyText.split user_input with
  | [] => raise ValueError
  | cmd :: args => ok (PyText.lower (PyText.strip cmd), args)
  end.

(** The body of [add_contact]; [name, phone = args] raises ValueError
    unless there are two arguments. *)
Definition add_contact_func : handler :=
  fun args book =>
    match args with
    | [name; phone] =>
        match Record_init name phone with
        | inl e => (raise e, book)
        | inr record =>
            match AddressBook.add_record record book with
            | (inl e, book') => (raise e, book')
            | (inr _, book') => (ok (VStr "Contact added."), book')
            end
        end
    | _ => (raise ValueError, book)
    end.

Definition add_contact : handler := input_error add_contact_func.

Definition change_contact_func : handler :=
  fun args book =>
    match args with
    | [name; phone] =>
        match AddressBook.on_record name (update_phone phone) book with
        | (inl e, book') => (raise e, book')
        | (inr _, book') => (ok (VStr "Contact changed."), book')
        end
    | _ => (raise ValueError, book)
    end.

Definition change_contact : handler := input_error change_contact_func.

Definition show_phone_func : handler :=
  fun args book =>
    match args with
    | [name] =>
        match AddressBook.find name book with
        | inl e => (raise e, book)
        | inr record => (ok (VStr (phone record)), book)
        end
    | _ => (raise ValueError, book)
    end.

Definition show_phone : handler := input_error show_phone_func.

Definition add_birthday_func : handler :=
  fun args book =>
    match args with
    | [name; birthday] =>
        match AddressBook.on_record name (add_birthday birthday) book with
        | (inl e, book') => (raise e, book')
        | (inr _, book') => (ok (VStr "Birthday added."), book')
        end
    | _ => (raise ValueError, book)
    end.

Definition add_birthday : handler := input_error add_birthday_func.

Definition show_birthday_func : handler :=
  fun args book =>
    match args with
    | [name] =>
        match AddressBook.find name book with
        | inl e => (raise e, book)
        | inr record =>
            (ok (match birthday record with
                 | Some d => VDate d
                 | None => VNone
                 end), book)
        end
    | _ => (raise ValueError, book)
    end.

Definition show_birthday : handler := input_error show_birthday_func.

(** What the program writes: the prompt of [input] and the lines of
    [print]. *)
Inductive event : Type :=
  | Prompt (text : string)
  | Print (line : string).

(** How [main] ends: it returns after [close] or [exit], an exception
    leaves it, or [input] finds no more lines. *)
Inductive ending : Type :=
  | Returned
  | Uncaught (e : exn)
  | EndOfInput.

(** [calendar.day_name[weekday]], in the C locale. *)
Definition day_name (weekday : Z) : string :=
  match weekday with
  | 0 => "Monday" | 1 => "Tuesday" | 2 => "Wednesday" | 3 => "Thursday"
  | 4 => "Friday" | 5 => "Saturday" | 6 => "Sunday"
  | _ => ""
  end.

(** The loop [for _ in range(0, 7)] of the [birthdays] command, with [n]
    rounds to go. *)
Fixpoint birthday_lines (n : nat) (weekday : Z) (upcoming_birthdays : Buckets)
    : list event :=
  match n with
  | O => []
  | S n' =>
      let weekday := (weekday + 1) mod 7 in
      match upcoming_birthdays !! weekday with
      | None => birthday_lines n' weekday upcoming_birthdays
      | Some names =>
          Print (day_name weekday ++ ": " ++ PyText.join ", " names)
          :: birthday_lines n' weekday upcoming_birthdays
      end
  end.

(** ["|{:^20}|{:^20}|".format(a, b)] *)
Definition table_row (a b : string) : string :=
  "|" ++ PyText.center 20 a ++ "|" ++ PyText.center 20 b ++ "|".

(** A handler called on the book of the world. *)
Definition on_book (h : handler) (args : list string) : M value :=
  fun w =>
    let '(res, book') := h args (book w) in
    (res, mkWorld book' (clock_reads w)).

Definition print_value (m : M value) : M (list event) :=
  do v <- m; ret [Print (str v)].

Section Clock.
Variable clock : nat -> Datetime.date.

(** One round of the [while] loop after [close] and [exit] are ruled out:
    the [elif] chain. *)
Definition dispatch (command : string) (args : list string) : M (list event) :=
  if String.eqb command "hello" then ret [Print "How can I help you?"]
  else if String.eqb command "add" then print_value (on_book add_contact args)
  else if String.eqb command "change" then
    print_value (on_book change_contact args)
  else if String.eqb command "phone" then print_value (on_book show_phone args)
  else if String.eqb command "all" then
    fun w =>
      (ok (Print (table_row "Contact name" "Phone number")
           :: map (fun kv => Print (table_row (name kv.2) (phone kv.2)))
                (book w)),
       w)
  else if String.eqb command "add-birthday" then
    print_value (on_book add_birthday args)
  else if String.eqb command "show-birthday" then
    print_value (on_book show_birthday args)
  else if String.eqb command "birthdays" then
    do upcoming_birthdays <- get_birthdays_per_week clock;
    do today <- datetime_today clock;
    ret (birthday_lines 7 (Datetime.weekday today) upcoming_birthdays)
  else ret [Print "Invalid command."].

(** The [while True] loop, fed the lines [inputs]. *)
Fixpoint loop (inputs : list string) (w : World)
    : list event * World * ending :=
  match inputs with
  | [] => ([Prompt "Enter a command: "], w, EndOfInput)
  | user_input :: inputs' =>
      match parse_input user_input with
      | inl e => ([Prompt "Enter a command: "], w, Uncaught e)
      | inr (command, args) =>
          if String.eqb command "close" || String.eqb command "exit"
          then ([Prompt "Enter a command: "; Print "Good bye!"], w, Returned)
          else
            match dispatch command args w with
            | (inl e, w') => ([Prompt "Enter a command: "], w', Uncaught e)
            | (inr out, w') =>
                let '(out', w'', e) := loop inputs' w' in
                (Prompt "Enter a command: " :: out ++ out', w'', e)
            end
      end
  end.

(** [main()] *)
Definition main (inputs : list string) : list event * World * ending :=
  let '(out, w, e) := loop inputs (mkWorld AddressBook.empty 0) in
  (Print "Welcome to the assistant bot!" :: out, w, e).

End Clock.

End Cli.

(** ** Invariants *)

(** Keys of the buckets are made for Monday to Friday only, and only with
    a name. *)
Definition buckets_ok (ub : gmap Z (list string)) : Prop :=
  forall wd names, ub !! wd = Some names -> 0 <= wd <= 4 /\ names <> [].

(** The line the [birthdays] command writes for a weekday: none when the
    weekday is not a key of the buckets. *)
Definition bucket_line (ub : gmap Z (list string)) (wd : Z) : list Cli.event :=
  match ub !! wd with
  | None => []
  | Some names =>
      [Cli.Print (Cli.day_name wd ++ ": " ++ PyText.join ", " names)%string]
  end.

(** A string without white space. *)
Definition solid (t : string) : bool :=
  PyStr.all_chars (fun c => negb (PyText.isspace c)) t.

(** Every record of the book has a phone that [Phone] accepts. *)
Definition phones_ok (b : AddressBook.t) : Prop :=
  forall k r, (k, r) ∈ b -> Phone (phone r) = ok (phone r).

(** * Proofs *)

(** ** Calendar arithmetic *)

Section Calendar.
Import Datetime.

Local Ltac leap_split :=
  unfold is_leap in *;
  repeat match goal with
  | |- context [ (?a =? ?b) ] => destruct (Z.eqb_spec a b)
  | H : context [ (?a =? ?b) ] |- _ => destruct (Z.eqb_spec a b)
  end; simpl in *.

Lemma days_before_year_succ y :
  days_before_year (y + 1) = days_before_year y + 365 + Z_of_bool (is_leap y).
Proof.
  unfold days_before_year.
  replace (y + 1 - 1) with y by lia.
  leap_split; Z.div_mod_to_equations; lia.
Qed.

Lemma days_before_year_mono y1 y2 :
  y1 <= y2 -> days_before_year y1 <= days_before_year y2.
Proof.
  unfold days_before_year. intros H.
  Z.div_mod_to_equations. lia.
Qed.

Lemma month_cases m :
  1 <= m <= 12 ->
  m = 1 \/ m = 2 \/ m = 3 \/ m = 4 \/ m = 5 \/ m = 6 \/
  m = 7 \/ m = 8 \/ m = 9 \/ m = 10 \/ m = 11 \/ m = 12.
Proof. lia. Qed.

Lemma check_date_fields_true y m d :
  check_date_fields y m d = true <->
  1 <= y <= 9999 /\ 1 <= m <= 12 /\ 1 <= d <= days_in_month y m.
Proof.
  unfold check_date_fields, MINYEAR, MAXYEAR.
  rewrite !andb_true_iff, !Z.leb_le. lia.
Qed.

Lemma day_of_year_bounds y m d :
  1 <= m <= 12 -> 1 <= d <= days_in_month y m ->
  1 <= days_before_month y m + d <= 365 + Z_of_bool (is_leap y).
Proof.
  intros Hm Hd. unfold days_in_month, days_before_month in *.
  destruct (is_leap y);
    destruct (month_cases m Hm) as [->|[->|[->|[->|[->|[->|[->|[->|[->|[->|[->| ->]]]]]]]]]]];
    simpl in *; lia.
Qed.

Lemma toordinal_bounds d :
  date_valid d -> 1 <= toordinal d <= MAXORDINAL.
Proof.
  unfold date_valid, toordinal, ymd2ord. rewrite check_date_fields_true.
  intros (Hy & Hm & Hd).
  pose proof (day_of_year_bounds _ _ _ Hm Hd) as Hb.
  assert (H0 : days_before_year 1 = 0) by reflexivity.
  pose proof (days_before_year_mono 1 (year d) ltac:(lia)) as Hlo.
  assert (Hhi : days_before_year (year d) + 365 + Z_of_bool (is_leap (year d))
                <= MAXORDINAL).
  { destruct (Z.eq_dec (year d) 9999) as [->|Hne]; [vm_compute; discriminate|].
    pose proof (days_before_year_succ (year d)) as Hs.
    pose proof (days_before_year_mono (year d + 1) 9999 ltac:(lia)) as Hm'.
    assert (H9 : days_before_year 9999 = 3651694) by reflexivity.
    unfold MAXORDINAL. lia. }
  lia.
Qed.

(** *** [fromordinal] undoes [toordinal] *)

Lemma ord2md_ok_all :
  forallb (fun k => ord2md_ok (Z.of_nat k) true && ord2md_ok (Z.of_nat k) false)
          (seq 0 365) = true.
Proof. vm_compute. reflexivity. Qed.

Lemma ord2md_spec n leap :
  0 <= n < 365 ->
  let '(m, d) := ord2md n leap in
  1 <= m <= 12
  /\ 1 <= d <= DAYS_IN_MONTH m + Z_of_bool ((m =? 2) && leap)
  /\ DAYS_BEFORE_MONTH m + Z_of_bool ((2 <? m) && leap) + d = n + 1.
Proof.
  intros Hn.
  pose proof ord2md_ok_all as Hall.
  rewrite forallb_forall in Hall.
  specialize (Hall (Z.to_nat n)).
  rewrite Z2Nat.id in Hall by lia.
  assert (Hin : In (Z.to_nat n) (seq 0 365)).
  { apply in_seq. lia. }
  apply Hall in Hin. apply andb_true_iff in Hin as [Ht Hf].
  assert (Hok : ord2md_ok n leap = true) by (destruct leap; assumption).
  unfold ord2md_ok in Hok. destruct (ord2md n leap) as [m d].
  rewrite !andb_true_iff, !Z.leb_le, Z.eqb_eq in Hok. lia.
Qed.

(** A year written in the 400/100/4/1-year cycles of [_ord2ymd]. *)
Lemma days_before_year_cycles a b c e :
  0 <= a -> 0 <= b <= 3 -> 0 <= c <= 24 -> 0 <= e <= 3 ->
  days_before_year (400 * a + 100 * b + 4 * c + e + 1)
  = 146097 * a + 36524 * b + 1461 * c + 365 * e.
Proof.
  intros Ha Hb Hc He. unfold days_before_year.
  replace (400 * a + 100 * b + 4 * c + e + 1 - 1)
    with (400 * a + 100 * b + 4 * c + e) by lia.
  Z.div_mod_to_equations. lia.
Qed.

Lemma is_leap_cycles a b c e :
  0 <= a -> 0 <= b <= 3 -> 0 <= c <= 24 -> 0 <= e <= 3 ->
  is_leap (400 * a + 100 * b + 4 * c + e + 1)
  = (e =? 3) && (negb (c =? 24) || (b =? 3)).
Proof.
  intros Ha Hb Hc He.
  leap_split; try reflexivity; exfalso; Z.div_mod_to_equations; lia.
Qed.

Lemma ord2ymd_spec o :
  1 <= o ->
  let d := ord2ymd o in
  toordinal d = o
  /\ 1 <= year d /\ days_before_year (year d) < o
  /\ 1 <= month d <= 12
  /\ 1 <= day d <= days_in_month (year d) (month d).
Proof.
  intros Ho. unfold ord2ymd, DI400Y, DI100Y, DI4Y.
  set (n0 := o - 1).
  pose proof (Z.div_mod n0 146097 ltac:(lia)) as E1.
  pose proof (Z.mod_pos_bound n0 146097 ltac:(lia)) as B1.
  assert (A1 : 0 <= n0 / 146097) by (apply Z.div_pos; lia).
  set (a := n0 / 146097) in *. set (r1 := n0 mod 146097) in *.
  pose proof (Z.div_mod r1 36524 ltac:(lia)) as E2.
  pose proof (Z.mod_pos_bound r1 36524 ltac:(lia)) as B2.
  assert (A2 : 0 <= r1 / 36524) by (apply Z.div_pos; lia).
  set (b := r1 / 36524) in *. set (r2 := r1 mod 36524) in *.
  pose proof (Z.div_mod r2 1461 ltac:(lia)) as E3.
  pose proof (Z.mod_pos_bound r2 1461 ltac:(lia)) as B3.
  assert (A3 : 0 <= r2 / 1461) by (apply Z.div_pos; lia).
  set (c := r2 / 1461) in *. set (r3 := r2 mod 1461) in *.
  pose proof (Z.div_mod r3 365 ltac:(lia)) as E4.
  pose proof (Z.mod_pos_bound r3 365 ltac:(lia)) as B4.
  assert (A4 : 0 <= r3 / 365) by (apply Z.div_pos; lia).
  set (e := r3 / 365) in *. set (n := r3 mod 365) in *.
  clearbody a r1 b r2 c r3 e n.
  assert (Hb : b <= 4) by lia.
  assert (Hc : c <= 24) by lia.
  assert (He : e <= 4) by lia.
  destruct (Z.eqb_spec e 4) as [He4|He4]; simpl orb.
  - (* the last day of a leap year that ends a 4-year cycle *)
    assert (c <= 23 /\ b <= 3 /\ n = 0) as (Hc' & Hb' & ->) by lia.
    replace (a * 400 + 1 + b * 100 + c * 4 + e - 1)
      with (400 * a + 100 * b + 4 * c + 3 + 1) by lia.
    unfold toordinal, ymd2ord, days_before_month, days_in_month; simpl.
    rewrite is_leap_cycles, days_before_year_cycles by lia.
    replace (c =? 24) with false by (symmetry; apply Z.eqb_neq; lia).
    simpl. lia.
  - destruct (Z.eqb_spec b 4) as [Hb4|Hb4].
    + (* the last day of a 400-year cycle *)
      assert (c = 0 /\ e = 0 /\ n = 0) as (-> & -> & ->) by lia.
      subst b.
      replace (a * 400 + 1 + 4 * 100 + 0 * 4 + 0 - 1)
        with (400 * a + 100 * 3 + 4 * 24 + 3 + 1) by lia.
      unfold toordinal, ymd2ord, days_before_month, days_in_month; simpl.
      rewrite is_leap_cycles, days_before_year_cycles by lia.
      simpl. lia.
    + pose proof (ord2md_spec n ((e =? 3) && (negb (c =? 24) || (b =? 3)))
                    ltac:(lia)) as Hmd.
      destruct (ord2md n _) as [m d]. destruct Hmd as (Hm & Hd & Hsum).
      replace (a * 400 + 1 + b * 100 + c * 4 + e)
        with (400 * a + 100 * b + 4 * c + e + 1) by lia.
      unfold toordinal, ymd2ord, days_before_month, days_in_month; simpl.
      rewrite is_leap_cycles, days_before_year_cycles by lia.
      repeat split; try lia.
      destruct ((m =? 2) && _) eqn:Hfeb.
      * apply andb_true_iff in Hfeb as [Hm2 _]. apply Z.eqb_eq in Hm2.
        subst m. simpl in Hd. lia.
      * simpl in Hd. lia.
Qed.

Lemma toordinal_fromordinal o :
  1 <= o -> toordinal (fromordinal o) = o.
Proof. intros Ho. apply (ord2ymd_spec o Ho). Qed.

Lemma fromordinal_valid o :
  1 <= o <= MAXORDINAL -> date_valid (fromordinal o).
Proof.
  intros Ho. destruct (ord2ymd_spec o ltac:(lia)) as (_ & Hy & Hlt & Hm & Hd).
  unfold date_valid, fromordinal. rewrite check_date_fields_true.
  repeat split; try lia.
  destruct (Z_le_gt_dec (year (ord2ymd o)) 9999) as [?|Hgt]; [assumption|].
  pose proof (days_before_year_mono 10000 (year (ord2ymd o)) ltac:(lia)) as Hmono.
  assert (H10 : days_before_year 10000 = MAXORDINAL) by reflexivity.
  lia.
Qed.

(** *** Weekdays and the shift to Monday *)

Lemma weekday_range d : 0 <= weekday d < 7.
Proof. unfold weekday. apply Z.mod_pos_bound. lia. Qed.

(** The last day Python can represent is a Friday, so the shift of a
    weekend day never leaves the calendar. *)
Lemma weekend_shift_in_range d :
  date_valid d -> weekday d = 5 \/ weekday d = 6 ->
  1 <= toordinal d + (7 - weekday d) <= MAXORDINAL.
Proof.
  intros Hv Hw. pose proof (toordinal_bounds d Hv) as Hb.
  unfold weekday, MAXORDINAL in *.
  Z.div_mod_to_equations. lia.
Qed.

Lemma weekday_after_shift d d' :
  weekday d = 5 \/ weekday d = 6 ->
  toordinal d' = toordinal d + (7 - weekday d) ->
  weekday d' = 0.
Proof.
  unfold weekday. intros Hw ->.
  Z.div_mod_to_equations. lia.
Qed.

(** *** The same day a year later *)

Lemma ymd2ord_next_year y m d :
  1 <= m <= 12 -> 365 <= ymd2ord (y + 1) m d - ymd2ord y m d.
Proof.
  intros Hm. unfold ymd2ord, days_before_month.
  rewrite days_before_year_succ.
  destruct (is_leap y), (is_leap (y + 1)), (2 <? m); simpl; lia.
Qed.

(** Of two years in a row at most one is a leap year. *)
Lemma is_leap_succ y : is_leap y = true -> is_leap (y + 1) = false.
Proof.
  intros H. leap_split; try reflexivity; try discriminate;
    exfalso; Z.div_mod_to_equations; lia.
Qed.

Lemma date_new_ok y m d x :
  date_new y m d = inr x ->
  x = mkdate y m d /\ date_valid x.
Proof.
  unfold date_new, date_valid.
  destruct (check_date_fields y m d) eqn:E; [|discriminate].
  intros [= <-]. split; [reflexivity|exact E].
Qed.

Lemma date_new_error y m d e : date_new y m d = inl e -> e = ValueError.
Proof.
  unfold date_new. destruct (check_date_fields y m d); [discriminate|].
  intros [= <-]. reflexivity.
Qed.

Lemma feb29_needs_leap y :
  check_date_fields y 2 29 = true -> is_leap y = true.
Proof.
  rewrite check_date_fields_true. unfold days_in_month.
  destruct (is_leap y); simpl; [reflexivity|lia].
Qed.

End Calendar.

(** ** The loop of the query *)

Section QueryFacts.
Import Datetime Query QuerySpec.

Lemma next_birthday_valid today b nb :
  next_birthday today b = inr nb -> date_valid nb.
Proof.
  unfold next_birthday, replace_year, rbind.
  destruct (date_new (year today) (month b) (day b)) as [e|nb0] eqn:E0;
    [discriminate|].
  apply date_new_ok in E0 as [-> Hv0].
  destruct (date_le _ today).
  - intros H. apply date_new_ok in H as [_ Hv]. exact Hv.
  - intros [= <-]. exact Hv0.
Qed.

Lemma next_birthday_error today b e :
  next_birthday today b = inl e -> e = ValueError.
Proof.
  unfold next_birthday, replace_year, rbind.
  destruct (date_new (year today) (month b) (day b)) as [e0|nb0] eqn:E0.
  - intros [= <-]. eapply date_new_error, E0.
  - destruct (date_le nb0 today); [|discriminate].
    apply date_new_error.
Qed.

Lemma date_to_congratulate_weekend nb :
  date_valid nb -> weekday nb = 5 \/ weekday nb = 6 ->
  date_to_congratulate nb = ok (fromordinal (toordinal nb + (7 - weekday nb))).
Proof.
  intros Hv Hw. pose proof (weekend_shift_in_range nb Hv Hw) as Hr.
  unfold date_to_congratulate, add_days.
  replace ((weekday nb =? 5) || (weekday nb =? 6)) with true
    by (symmetry; apply orb_true_iff; rewrite !Z.eqb_eq; exact Hw).
  replace ((0 <? _) && (_ <=? MAXORDINAL)) with true; [reflexivity|].
  symmetry. apply andb_true_iff. rewrite Z.ltb_lt, Z.leb_le. lia.
Qed.

Lemma date_to_congratulate_workday nb :
  weekday nb <> 5 -> weekday nb <> 6 ->
  date_to_congratulate nb = ok nb.
Proof.
  intros H5 H6. unfold date_to_congratulate.
  apply Z.eqb_neq in H5, H6. rewrite H5, H6. reflexivity.
Qed.

Lemma date_to_congratulate_total nb :
  date_valid nb ->
  exists dtc, date_to_congratulate nb = ok dtc
              /\ toordinal nb <= toordinal dtc.
Proof.
  intros Hv.
  destruct (Z.eq_dec (weekday nb) 5) as [H5|H5];
    [|destruct (Z.eq_dec (weekday nb) 6) as [H6|H6]].
  - eexists. split; [apply date_to_congratulate_weekend; auto|].
    pose proof (toordinal_bounds nb Hv).
    rewrite toordinal_fromordinal; lia.
  - eexists. split; [apply date_to_congratulate_weekend; auto|].
    pose proof (toordinal_bounds nb Hv).
    rewrite toordinal_fromordinal; lia.
  - exists nb. split; [apply date_to_congratulate_workday; auto|lia].
Qed.

Variable clock : nat -> date.

Lemma loop_body_spec n r ub w :
  loop_body clock n r ub w
  = match birthday r with
    | None => (ok ub, w)
    | Some b =>
        (ok (match congratulation_weekday (clock (clock_reads w)) b with
             | Some wd => append ub wd n
             | None => ub
             end),
         mkWorld (book w) (S (clock_reads w)))
    end.
Proof.
  unfold loop_body, congratulation_weekday.
  destruct (birthday r) as [b|]; [|reflexivity].
  unfold bind, datetime_today; simpl.
  destruct (next_birthday (clock (clock_reads w)) b) as [e|nb] eqn:Enb.
  - apply next_birthday_error in Enb as ->. reflexivity.
  - apply next_birthday_valid in Enb.
    destruct (date_to_congratulate_total nb Enb) as (dtc & -> & _).
    unfold lift, ok; simpl.
    destruct (7 <? sub_days dtc _); reflexivity.
Qed.

Lemma for_items_spec items : forall ub w,
  for_items clock items ub w
  = (ok (upcoming clock (clock_reads w) items ub),
     mkWorld (book w) (clock_reads w + readings items)).
Proof.
  induction items as [|[n r] items IH]; intros ub w.
  - simpl. unfold ret. rewrite Nat.add_0_r. destruct w; reflexivity.
  - simpl. unfold bind. rewrite loop_body_spec.
    destruct (birthday r) as [b|] eqn:Eb; simpl.
    + rewrite IH. simpl. do 2 f_equal. lia.
    + apply IH.
Qed.

Lemma get_birthdays_per_week_spec w :
  get_birthdays_per_week clock w
  = (ok (upcoming clock (clock_reads w) (book w) ∅),
     mkWorld (book w) (clock_reads w + readings (book w))).
Proof.
  unfold get_birthdays_per_week, bind, data_items. apply for_items_spec.
Qed.

End QueryFacts.

(** ** Who is in which bucket *)

Section Buckets.
Import Datetime Query QuerySpec.

Lemma bucket_append ub wd n wd' :
  bucket (append ub wd n) wd'
  = if decide (wd = wd') then bucket ub wd ++ [n] else bucket ub wd'.
Proof.
  unfold bucket, append. destruct (decide (wd = wd')) as [->|Hne].
  - rewrite lookup_insert_eq. reflexivity.
  - rewrite lookup_insert_ne by exact Hne. reflexivity.
Qed.

Lemma bucket_empty wd : bucket ∅ wd = [].
Proof. unfold bucket. rewrite lookup_empty. reflexivity. Qed.

Variable clock : nat -> date.

(** A name is in a bucket after the loop exactly when it was there
    before, or an entry under that name is reported for that weekday at
    the clock reading taken for it. *)
Lemma upcoming_elem x wd items : forall k ub,
  x ∈ bucket (upcoming clock k items ub) wd
  <-> x ∈ bucket ub wd
      \/ exists i r b,
           items !! i = Some (x, r) /\ birthday r = Some b
           /\ congratulation_weekday (clock (k + readings (take i items))) b
              = Some wd.
Proof.
  induction items as [|[n r] items IH]; intros k ub; simpl.
  - split; [auto|]. intros [H|(i & r & b & H & _)]; [exact H|].
    rewrite lookup_nil in H. discriminate.
  - destruct (birthday r) as [b|] eqn:Eb.
    + rewrite IH. split.
      * intros [H|(i & r' & b' & Hi & Hb' & Hc)].
        -- destruct (congratulation_weekday (clock k) b) as [wd0|] eqn:Ec;
             [|left; exact H].
           rewrite bucket_append in H.
           destruct (decide (wd0 = wd)) as [->|Hne]; [|left; exact H].
           apply elem_of_app in H as [H|H]; [left; exact H|].
           apply list_elem_of_singleton in H as ->.
           right. exists 0%nat, r, b. simpl. rewrite Nat.add_0_r. auto.
        -- right. exists (S i), r', b'. simpl. rewrite Eb.
           replace (k + S (readings (take i items)))%nat
             with (S k + readings (take i items))%nat by lia.
           auto.
      * intros [H|(i & r' & b' & Hi & Hb' & Hc)].
        -- left. destruct (congratulation_weekday (clock k) b) as [wd0|];
             [|exact H].
           rewrite bucket_append. destruct (decide (wd0 = wd)) as [->|Hne];
             [|exact H].
           apply elem_of_app. left. exact H.
        -- destruct i as [|i]; simpl in Hi, Hc.
           ++ injection Hi as -> ->. rewrite Eb in Hb'. injection Hb' as ->.
              rewrite Nat.add_0_r in Hc. rewrite Hc. left.
              rewrite bucket_append, decide_True by reflexivity.
              apply elem_of_app. right. apply list_elem_of_singleton.
              reflexivity.
           ++ rewrite Eb in Hc. right. exists i, r', b'.
              replace (S k + readings (take i items))%nat
                with (k + S (readings (take i items)))%nat by lia.
              auto.
    + rewrite IH. split.
      * intros [H|(i & r' & b' & Hi & Hb' & Hc)]; [left; exact H|].
        right. exists (S i), r', b'. simpl. rewrite Eb. auto.
      * intros [H|(i & r' & b' & Hi & Hb' & Hc)]; [left; exact H|].
        destruct i as [|i]; simpl in Hi, Hc.
        -- injection Hi as -> ->. rewrite Eb in Hb'. discriminate.
        -- rewrite Eb in Hc. right. exists i, r', b'. auto.
Qed.

Lemma keys_lookup {V} (d : Dict.t V) i k v :
  d !! i = Some (k, v) -> Dict.keys d !! i = Some k.
Proof. intros H. unfold Dict.keys. rewrite list_lookup_fmap, H. reflexivity. Qed.

(** The entry of a name decides alone whether and where the name is
    reported: names are filed once. *)
Lemma reported_iff items k i n r wd :
  NoDup (Dict.keys items) -> items !! i = Some (n, r) ->
  n ∈ bucket (upcoming clock k items ∅) wd
  <-> exists b, birthday r = Some b
                /\ congratulation_weekday
                     (clock (k + readings (take i items))) b = Some wd.
Proof.
  intros Hnd Hi. rewrite upcoming_elem, bucket_empty. split.
  - intros [H|(j & r' & b & Hj & Hb & Hc)]; [inversion H|].
    assert (j = i) as ->.
    { eapply NoDup_lookup; [exact Hnd| |]; eapply keys_lookup; eassumption. }
    rewrite Hi in Hj. injection Hj as <-. eauto.
  - intros (b & Hb & Hc). right. exists i, r, b. auto.
Qed.

Lemma not_reported items k i n r :
  NoDup (Dict.keys items) -> items !! i = Some (n, r) ->
  (forall b, birthday r = Some b ->
     congratulation_weekday (clock (k + readings (take i items))) b = None) ->
  ~ in_some_bucket n (upcoming clock k items ∅).
Proof.
  intros Hnd Hi Hnone [wd Hin].
  apply (reported_iff items k i n r wd Hnd Hi) in Hin as (b & Hb & Hc).
  rewrite (Hnone b Hb) in Hc. discriminate.
Qed.

End Buckets.

(** ** The dictionary *)

Section DictFacts.
Context {V : Type}.
Implicit Types (d : list (string * V)) (k : string) (v : V).

Lemma get_None d k : Dict.get k d = None <-> k ∉ Dict.keys d.
Proof.
  induction d as [|[k' v'] d IH]; simpl.
  - split; [intros _; apply not_elem_of_nil|reflexivity].
  - unfold Dict.keys in *. rewrite not_elem_of_cons.
    destruct (String.eqb_spec k' k) as [->|Hne].
    + split; [discriminate|]. intros [H _]. congruence.
    + rewrite IH. split; [intros H; split; [congruence|exact H]|intros [_ H]; exact H].
Qed.

Lemma get_Some_elem d k v : Dict.get k d = Some v -> (k, v) ∈ d.
Proof.
  induction d as [|[k' v'] d IH]; simpl; [discriminate|].
  destruct (String.eqb_spec k' k) as [->|Hne].
  - intros [= ->]. apply list_elem_of_here.
  - intros H. apply list_elem_of_further, IH, H.
Qed.

Lemma get_set_eq d k v : Dict.get k (Dict.set k v d) = Some v.
Proof.
  induction d as [|[k' v'] d IH]; simpl.
  - rewrite String.eqb_refl. reflexivity.
  - destruct (String.eqb_spec k' k) as [->|Hne]; simpl.
    + rewrite String.eqb_refl. reflexivity.
    + apply String.eqb_neq in Hne. rewrite Hne. exact IH.
Qed.

Lemma get_set_ne d k k0 v : k <> k0 -> Dict.get k0 (Dict.set k v d) = Dict.get k0 d.
Proof.
  intros Hne. induction d as [|[k' v'] d IH]; simpl.
  - apply String.eqb_neq in Hne. rewrite Hne. reflexivity.
  - destruct (String.eqb_spec k' k) as [->|Hne']; simpl.
    + apply String.eqb_neq in Hne. rewrite Hne. reflexivity.
    + rewrite IH. reflexivity.
Qed.

Lemma set_same d k v : Dict.get k d = Some v -> Dict.set k v d = d.
Proof.
  induction d as [|[k' v'] d IH]; simpl; [discriminate|].
  destruct (String.eqb_spec k' k) as [->|Hne].
  - intros [= ->]. reflexivity.
  - intros H. rewrite IH by exact H. reflexivity.
Qed.

(** Writing under a key changes no other key, and adds the key at the
    end when it is new. *)
Lemma keys_set d k v :
  Dict.keys (Dict.set k v d)
  = match Dict.get k d with
    | Some _ => Dict.keys d
    | None => Dict.keys d ++ [k]
    end.
Proof.
  unfold Dict.keys. induction d as [|[k' v'] d IH]; csimpl; [reflexivity|].
  destruct (String.eqb_spec k' k) as [->|Hne]; csimpl; [reflexivity|].
  rewrite IH. destruct (Dict.get k d); reflexivity.
Qed.

Lemma NoDup_set d k v : NoDup (Dict.keys d) -> NoDup (Dict.keys (Dict.set k v d)).
Proof.
  intros Hnd. rewrite keys_set. destruct (Dict.get k d) eqn:E; [exact Hnd|].
  apply NoDup_app. repeat split.
  - exact Hnd.
  - intros x Hx Hx'. apply list_elem_of_singleton in Hx' as ->.
    apply get_None in E. contradiction.
  - apply NoDup_singleton.
Qed.

Lemma elem_set d k v k0 v0 :
  (k0, v0) ∈ Dict.set k v d -> (k0 = k /\ v0 = v) \/ (k0, v0) ∈ d.
Proof.
  induction d as [|[k' v'] d IH]; simpl.
  - intros H. apply list_elem_of_singleton in H as [= -> ->]. auto.
  - destruct (String.eqb_spec k' k) as [->|Hne]; intros H;
      apply elem_of_cons in H as [H|H].
    + injection H as -> ->. auto.
    + right. apply list_elem_of_further, H.
    + right. rewrite H. apply list_elem_of_here.
    + destruct (IH H) as [?|?]; [auto|right; apply list_elem_of_further; auto].
Qed.

Lemma elem_remove d k x : x ∈ Dict.remove k d -> x ∈ d.
Proof.
  induction d as [|[k' v'] d IH]; simpl; [auto|].
  destruct (String.eqb k' k); intros H.
  - apply list_elem_of_further, H.
  - apply elem_of_cons in H as [->|H];
      [apply list_elem_of_here|apply list_elem_of_further, IH, H].
Qed.

Lemma NoDup_remove d k : NoDup (Dict.keys d) -> NoDup (Dict.keys (Dict.remove k d)).
Proof.
  unfold Dict.keys. induction d as [|[k' v'] d IH]; csimpl; [auto|].
  rewrite NoDup_cons. intros [Hni Hnd].
  destruct (String.eqb k' k); [exact Hnd|].
  csimpl. rewrite NoDup_cons. split; [|apply IH, Hnd].
  intros Hin. apply Hni.
  apply list_elem_of_fmap in Hin as ([k1 v1] & -> & Hin).
  apply list_elem_of_fmap. exists (k1, v1). split; [reflexivity|].
  eapply elem_remove, Hin.
Qed.

Lemma count_absent d k : k ∉ Dict.keys d -> Dict.count k d = 0%nat.
Proof.
  unfold Dict.count, Dict.keys. induction d as [|[k' v'] d IH]; [reflexivity|].
  rewrite fmap_cons, not_elem_of_cons. csimpl. intros [Hne Hni].
  destruct (String.eqb_spec k' k) as [->|_]; [congruence|]. apply IH, Hni.
Qed.

(** A key is filed once or not at all. *)
Lemma count_NoDup d k :
  NoDup (Dict.keys d) ->
  Dict.count k d = match Dict.get k d with Some _ => 1%nat | None => 0%nat end.
Proof.
  unfold Dict.keys. induction d as [|[k' v'] d IH]; [reflexivity|].
  rewrite fmap_cons, NoDup_cons. csimpl. intros [Hni Hnd].
  unfold Dict.count in *. csimpl.
  destruct (String.eqb_spec k' k) as [->|Hne]; csimpl.
  - f_equal. apply (count_absent d k Hni).
  - apply IH, Hnd.
Qed.

End DictFacts.

(** ** Records and the books the program builds *)

Section BookFacts.
Import Datetime.

Lemma Phone_ok p x :
  Phone p = inr x ->
  x = p /\ String.length p = 10%nat /\ PyStr.isdigit p = true.
Proof.
  unfold Phone, PyStr.len.
  destruct (Z.eqb_spec (Z.of_nat (String.length p)) 10) as [Hl|Hl]; simpl;
    [|discriminate].
  destruct (PyStr.isdigit p); simpl; [|discriminate].
  intros [= <-]. repeat split; lia.
Qed.

Lemma Phone_error p e : Phone p = inl e -> e = InvalidPhoneNumberError.
Proof.
  unfold Phone. destruct (_ || _); [|discriminate]. intros [= <-]. reflexivity.
Qed.

Lemma Phone_accepts p :
  String.length p = 10%nat -> PyStr.isdigit p = true -> Phone p = ok p.
Proof.
  intros Hl Hd. unfold Phone, PyStr.len. rewrite Hl, Hd. reflexivity.
Qed.

Lemma Record_init_ok n p r :
  Record_init n p = inr r -> r = mkRecord n p None.
Proof.
  unfold Record_init, rbind. destruct (Phone p) as [e|x] eqn:E; [discriminate|].
  apply Phone_ok in E as [-> _]. intros [= <-]. reflexivity.
Qed.

Lemma strptime_valid s d : Strptime.strptime s = inr d -> date_valid d.
Proof.
  unfold Strptime.strptime.
  destruct (Re.match_ _ s) as [[rest g]|]; [|discriminate].
  destruct rest; [|discriminate].
  intros H. apply date_new_ok in H as [_ H]. exact H.
Qed.

Lemma strptime_error s e : Strptime.strptime s = inl e -> e = ValueError.
Proof.
  unfold Strptime.strptime.
  destruct (Re.match_ _ s) as [[rest g]|]; [|intros [= <-]; reflexivity].
  destruct rest; [|intros [= <-]; reflexivity].
  apply date_new_error.
Qed.

Lemma update_phone_entry_ok p k r :
  entry_ok k r -> entry_ok k (update_phone p r).2.
Proof.
  unfold update_phone. destruct (Phone p); simpl; auto.
Qed.

Lemma add_birthday_entry_ok s k r :
  entry_ok k r -> entry_ok k (add_birthday s r).2.
Proof.
  unfold add_birthday. destruct (Strptime.strptime s) as [e|d] eqn:E; simpl;
    [auto|].
  intros [Hn _]. split; [exact Hn|]. simpl. intros d' [= <-].
  eapply strptime_valid, E.
Qed.

Lemma book_ok_set b k r :
  book_ok b -> entry_ok k r -> book_ok (Dict.set k r b).
Proof.
  intros [Hnd Hall] Hr. split; [apply NoDup_set, Hnd|].
  intros k0 r0 Hin. apply elem_set in Hin as [[-> ->]|Hin]; [exact Hr|].
  apply Hall, Hin.
Qed.

Lemma book_ok_on_record b n f :
  book_ok b -> (forall k r, entry_ok k r -> entry_ok k (f r).2) ->
  book_ok (AddressBook.on_record n f b).2.
Proof.
  intros Hb Hf. unfold AddressBook.on_record, AddressBook.find.
  destruct (Dict.get n b) as [r|] eqn:E; simpl; [|exact Hb].
  specialize (Hf n r). destruct (f r) as [res r']. simpl in *.
  apply book_ok_set; [exact Hb|]. apply Hf.
  destruct Hb as [_ Hall]. apply Hall, get_Some_elem, E.
Qed.

(** The invariant of the address book. *)
Lemma reachable_book_ok b : reachable b -> book_ok b.
Proof.
  induction 1 as [|b n p r _ IH Hr|b n _ IH|b n p _ IH|b n s _ IH].
  - split; [apply NoDup_nil_2|]. intros k r H. inversion H.
  - apply Record_init_ok in Hr as ->. simpl.
    apply book_ok_set; [exact IH|]. split; [reflexivity|discriminate].
  - unfold AddressBook.delete. destruct (Dict.get n b); simpl; [|exact IH].
    destruct IH as [Hnd Hall]. split; [apply NoDup_remove, Hnd|].
    intros k r Hin. eapply Hall, elem_remove, Hin.
  - apply book_ok_on_record; [exact IH|]. intros k r. apply update_phone_entry_ok.
  - apply book_ok_on_record; [exact IH|]. intros k r. apply add_birthday_entry_ok.
Qed.

End BookFacts.

(** ** The birthday query: window, weekend shift, leap day, rollover *)

Section QueryClaims.
Import Datetime Query QuerySpec.

(** The query returns, with the buckets [upcoming] describes. *)
Lemma query_result clock w :
  (get_birthdays_per_week clock w).1
  = ok (upcoming clock (clock_reads w) (book w) ∅).
Proof. rewrite get_birthdays_per_week_spec. reflexivity. Qed.

(** A record the loop skips is reported under no weekday. *)
Lemma skipped_not_reported clock w i n r b :
  NoDup (Dict.keys (book w)) ->
  book w !! i = Some (n, r) -> birthday r = Some b ->
  congratulation_weekday
    (clock (clock_reads w + readings (take i (book w)))%nat) b = None ->
  exists ub, (get_birthdays_per_week clock w).1 = ok ub
             /\ ~ in_some_bucket n ub.
Proof.
  intros Hnd Hi Hb Hc. eexists. split; [apply query_result|].
  eapply not_reported; [exact Hnd|exact Hi|].
  intros b' Hb'. rewrite Hb in Hb'. injection Hb' as <-. exact Hc.
Qed.

End QueryClaims.

(** C1: the 7-day window is tested on the date to congratulate, after the
    weekend shift.  For every entry of the book with a birthday, with
    [today] the clock reading taken for it: when the next birthday [nb] and
    its date to congratulate [dtc] are more than 7 days after [today], the
    query returns and the entry's name is in no bucket. *)
Theorem window_on_shifted_date clock w i n r b nb dtc :
  NoDup (Dict.keys (Query.book w)) ->
  Query.book w !! i = Some (n, r) -> birthday r = Some b ->
  let today :=
    clock (Query.clock_reads w + Query.readings (take i (Query.book w)))%nat in
  Query.next_birthday today b = ok nb ->
  Query.date_to_congratulate nb = ok dtc ->
  7 < Datetime.sub_days dtc today ->
  exists ub, (Query.get_birthdays_per_week clock w).1 = ok ub
             /\ ~ Query.in_some_bucket n ub.
Proof.
  intros Hnd Hi Hb today Hnb Hdtc Hfar.
  apply (skipped_not_reported clock w i n r b Hnd Hi Hb).
  fold today. unfold QuerySpec.congratulation_weekday.
  unfold ok in Hnb, Hdtc. rewrite Hnb, Hdtc.
  apply Z.ltb_lt in Hfar. rewrite Hfar. reflexivity.
Qed.

(** C2: whatever the clock shows and whatever the birthday, a next
    birthday on a Saturday or a Sunday is congratulated on the Monday that
    follows, which is the next birthday plus (7 - weekday) days; a next
    birthday on any other weekday is congratulated on the day itself. *)
Theorem weekend_shifted_to_monday today b nb :
  Query.next_birthday today b = ok nb ->
  (Datetime.weekday nb = 5 \/ Datetime.weekday nb = 6 ->
     exists dtc,
       Query.date_to_congratulate nb = ok dtc
       /\ Datetime.date_valid dtc
       /\ Datetime.toordinal dtc
          = Datetime.toordinal nb + (7 - Datetime.weekday nb)
       /\ Datetime.weekday dtc = 0
       /\ 1 <= Datetime.sub_days dtc nb <= 2)
  /\ (Datetime.weekday nb <> 5 -> Datetime.weekday nb <> 6 ->
        Query.date_to_congratulate nb = ok nb).
Proof.
  intros Hnb. apply next_birthday_valid in Hnb. split.
  - intros Hw. pose proof (weekend_shift_in_range nb Hnb Hw) as Hr.
    eexists. split; [apply date_to_congratulate_weekend; assumption|].
    assert (Ho : Datetime.toordinal
                   (Datetime.fromordinal
                      (Datetime.toordinal nb + (7 - Datetime.weekday nb)))
                 = Datetime.toordinal nb + (7 - Datetime.weekday nb))
      by (apply toordinal_fromordinal; lia).
    split; [apply fromordinal_valid; exact Hr|].
    split; [exact Ho|].
    split; [eapply weekday_after_shift; eassumption|].
    unfold Datetime.sub_days. rewrite Ho. lia.
  - apply date_to_congratulate_workday.
Qed.

(** C3: a record born on 29 February is left out whenever the year the
    loop tries last is not a leap year: the query returns (nothing is
    raised) and the name is in no bucket, whatever the window. *)
Theorem leap_day_skipped clock w i n r b :
  NoDup (Dict.keys (Query.book w)) ->
  Query.book w !! i = Some (n, r) -> birthday r = Some b ->
  Datetime.month b = 2 -> Datetime.day b = 29 ->
  let today :=
    clock (Query.clock_reads w + Query.readings (take i (Query.book w)))%nat in
  Datetime.is_leap (QuerySpec.candidate_year today b) = false ->
  exists ub, (Query.get_birthdays_per_week clock w).1 = ok ub
             /\ ~ Query.in_some_bucket n ub.
Proof.
  intros Hnd Hi Hb Hm Hd today Hleap.
  apply (skipped_not_reported clock w i n r b Hnd Hi Hb). fold today.
  unfold QuerySpec.congratulation_weekday, Query.next_birthday,
    QuerySpec.candidate_year, Datetime.replace_year, rbind in *.
  rewrite Hm, Hd in *.
  destruct (Datetime.date_new (Datetime.year today) 2 29) as [e|nb0] eqn:E0;
    [reflexivity|].
  apply date_new_ok in E0 as [-> Hv0].
  apply feb29_needs_leap in Hv0. simpl in Hv0, Hleap |- *.
  destruct (Datetime.date_le _ today); [|congruence].
  unfold Datetime.date_new.
  destruct (Datetime.check_date_fields (Datetime.year today + 1) 2 29) eqn:E1;
    [|reflexivity].
  apply feb29_needs_leap in E1. congruence.
Qed.

(** C4: when the birthday's month and day in today's year give a date that
    is not after today, the next birthday is looked for in the year after,
    with the same month and day; and an entry whose birthday has today's
    month and day is in no bucket of the result. *)
Theorem same_day_rolls_to_next_year :
  (forall today b nb0,
     Datetime.replace_year b (Datetime.year today) = ok nb0 ->
     Datetime.date_le nb0 today = true ->
     Query.next_birthday today b
       = Datetime.replace_year nb0 (Datetime.year today + 1)
     /\ forall nb, Query.next_birthday today b = ok nb ->
          nb = Datetime.mkdate (Datetime.year today + 1)
                 (Datetime.month b) (Datetime.day b))
  /\ (forall clock w i n r b,
        NoDup (Dict.keys (Query.book w)) ->
        Query.book w !! i = Some (n, r) -> birthday r = Some b ->
        let today :=
          clock (Query.clock_reads w
                 + Query.readings (take i (Query.book w)))%nat in
        Datetime.month b = Datetime.month today ->
        Datetime.day b = Datetime.day today ->
        exists ub, (Query.get_birthdays_per_week clock w).1 = ok ub
                   /\ ~ Query.in_some_bucket n ub).
Proof.
  split.
  - intros today b nb0 H0 Hle.
    assert (Hnb : Query.next_birthday today b
                  = Datetime.replace_year nb0 (Datetime.year today + 1)).
    { unfold Query.next_birthday, ok in *. rewrite H0. simpl. rewrite Hle.
      apply date_new_ok in H0 as [-> _]. reflexivity. }
    split; [exact Hnb|].
    intros nb Hok. rewrite Hnb in Hok.
    apply date_new_ok in Hok as [-> _].
    apply date_new_ok in H0 as [-> _]. reflexivity.
  - intros clock w i n r b Hnd Hi Hb today Hm Hd.
    apply (skipped_not_reported clock w i n r b Hnd Hi Hb). fold today.
    unfold QuerySpec.congratulation_weekday.
    destruct (Query.next_birthday today b) as [e|nb] eqn:Enb; [reflexivity|].
    pose proof (next_birthday_valid _ _ _ Enb) as Hv.
    unfold Query.next_birthday, Datetime.replace_year, rbind in Enb.
    rewrite Hm, Hd in Enb.
    destruct (Datetime.date_new _ _ _) as [e|nb0] eqn:E0 in Enb; [discriminate|].
    apply date_new_ok in E0 as [-> Hv0].
    replace (Datetime.date_le _ today) with true in Enb.
    2:{ unfold Datetime.date_le. simpl.
        rewrite !Z.eqb_refl, Z.leb_refl. simpl.
        destruct (_ <? _), (_ <? _); reflexivity. }
    apply date_new_ok in Enb as [-> _]. simpl in *.
    destruct (date_to_congratulate_total _ Hv) as (dtc & -> & Hge).
    unfold ok. cbv beta iota.
    replace (7 <? Datetime.sub_days dtc today) with true; [reflexivity|].
    symmetry. apply Z.ltb_lt.
    apply check_date_fields_true in Hv0 as (_ & Hmr & _). simpl in Hmr.
    pose proof (ymd2ord_next_year (Datetime.year today) (Datetime.month today)
                  (Datetime.day today) Hmr) as Hyear.
    unfold Datetime.sub_days, Datetime.toordinal in *. simpl in Hge. lia.
Qed.

(** ** The clock *)

Section ClockFacts.
Import Datetime Query QuerySpec.

(** The buckets depend on the clock through the readings taken only. *)
Lemma upcoming_ext c1 c2 items : forall k1 k2 ub,
  (forall j, (j < readings items)%nat -> c1 (k1 + j)%nat = c2 (k2 + j)%nat) ->
  upcoming c1 k1 items ub = upcoming c2 k2 items ub.
Proof.
  induction items as [|[n r] items IH]; intros k1 k2 ub Hagree; simpl;
    [reflexivity|].
  simpl in Hagree. destruct (birthday r) as [b|].
  - pose proof (Hagree 0%nat ltac:(lia)) as H0.
    rewrite !Nat.add_0_r in H0. rewrite H0.
    apply IH. intros j Hj. specialize (Hagree (S j) ltac:(lia)).
    replace (S k1 + j)%nat with (k1 + S j)%nat by lia.
    replace (S k2 + j)%nat with (k2 + S j)%nat by lia. exact Hagree.
  - apply IH, Hagree.
Qed.

End ClockFacts.

(** C5, as the code has it: the query has no [today] parameter.  It reads
    the system clock itself, once for each record with a birthday; two runs
    on the same book whose clock readings agree one by one return the same
    buckets. *)
Theorem same_readings_same_result clock1 clock2 w1 w2 :
  Query.book w1 = Query.book w2 ->
  (forall j, (j < Query.readings (Query.book w1))%nat ->
     clock1 (Query.clock_reads w1 + j)%nat
     = clock2 (Query.clock_reads w2 + j)%nat) ->
  (Query.get_birthdays_per_week clock1 w1).1
  = (Query.get_birthdays_per_week clock2 w2).1
  /\ Query.clock_reads (Query.get_birthdays_per_week clock1 w1).2
     = (Query.clock_reads w1 + Query.readings (Query.book w1))%nat.
Proof.
  intros Hbook Hagree. rewrite !get_birthdays_per_week_spec. simpl.
  split; [|reflexivity]. f_equal. rewrite <- Hbook.
  apply upcoming_ext, Hagree.
Qed.

(** C10: the query leaves the address book as it found it. *)
Theorem query_leaves_book_unchanged clock w :
  Query.book (Query.get_birthdays_per_week clock w).2 = Query.book w.
Proof. rewrite get_birthdays_per_week_spec. reflexivity. Qed.

(** ** Phone numbers *)

Section PhoneFacts.

Lemma decimal_digits_isdigit s :
  s <> EmptyString -> PyStr.decimal_digits s = true -> PyStr.isdigit s = true.
Proof.
  intros Hne Hd. unfold PyStr.isdigit. destruct s as [|c s]; [congruence|].
  revert Hd. unfold PyStr.decimal_digits. generalize (String c s). clear.
  induction s as [|c s IH]; simpl; [reflexivity|].
  rewrite !andb_true_iff. intros [Hc Hs]. split; [|apply IH, Hs].
  unfold PyStr.char_isdigit. rewrite Hc. reflexivity.
Qed.

(** Ten decimal digits are accepted, at creation and at update, and
    stored as given. *)
Lemma ten_decimal_digits_accepted n p self :
  String.length p = 10%nat -> PyStr.decimal_digits p = true ->
  Phone p = ok p
  /\ Record_init n p = ok (mkRecord n p None)
  /\ update_phone p self = (ok tt, mkRecord (name self) p (birthday self)).
Proof.
  intros Hl Hd.
  assert (Hp : Phone p = ok p).
  { apply Phone_accepts; [exact Hl|]. apply decimal_digits_isdigit; [|exact Hd].
    intros ->. discriminate. }
  unfold Record_init, update_phone. rewrite Hp. auto.
Qed.

(** A phone that is refused is refused with InvalidPhoneNumberError, at
    creation and at update, and the update leaves the record as it was. *)
Lemma refused_phone p e n self :
  Phone p = inl e ->
  e = InvalidPhoneNumberError
  /\ Record_init n p = raise InvalidPhoneNumberError
  /\ update_phone p self = (raise InvalidPhoneNumberError, self).
Proof.
  intros Hp. pose proof (Phone_error p e Hp) as ->.
  unfold Record_init, update_phone. rewrite Hp. auto.
Qed.

(** What [Phone] accepts, exactly. *)
Lemma Phone_accepts_iff p :
  Phone p = ok p
  <-> String.length p = 10%nat /\ PyStr.all_chars PyStr.char_isdigit p = true.
Proof.
  split.
  - intros H. apply Phone_ok in H as (_ & Hl & Hd). split; [exact Hl|].
    destruct p; [discriminate|exact Hd].
  - intros [Hl Hd]. apply Phone_accepts; [exact Hl|].
    destruct p; [discriminate|exact Hd].
Qed.

End PhoneFacts.

(** ** The address book *)

Section AddressBookFacts.

Lemma length_set {V} (d : list (string * V)) k v v0 :
  Dict.get k d = Some v0 -> length (Dict.set k v d) = length d.
Proof.
  induction d as [|[k' v'] d IH]; simpl; [discriminate|].
  destruct (String.eqb k' k); simpl; [reflexivity|].
  intros H. rewrite IH by exact H. reflexivity.
Qed.

Lemma count_after_set {V} (d : list (string * V)) k v :
  NoDup (Dict.keys d) -> Dict.count k (Dict.set k v d) = 1%nat.
Proof.
  intros Hnd. rewrite count_NoDup by (apply NoDup_set, Hnd).
  rewrite get_set_eq. reflexivity.
Qed.

Lemma count_le_1 {V} (d : list (string * V)) k :
  NoDup (Dict.keys d) -> (Dict.count k d <= 1)%nat.
Proof.
  intros Hnd. rewrite count_NoDup by exact Hnd.
  destruct (Dict.get k d); lia.
Qed.

End AddressBookFacts.

(** C8: in every book the program builds a name is filed at most once;
    [add_record] does not fail; after it the book holds one entry under the
    record's name, the record just added; adding a second record of that
    name replaces the first, and the book has as many entries as before,
    under the same keys. *)
Theorem one_record_per_name b r r' :
  reachable b -> name r' = name r ->
  (forall k, (Dict.count k b <= 1)%nat)
  /\ (AddressBook.add_record r b).1 = ok tt
  /\ (let b1 := (AddressBook.add_record r b).2 in
      Dict.count (name r) b1 = 1%nat
      /\ AddressBook.find (name r) b1 = ok r
      /\ (forall k, (Dict.count k b1 <= 1)%nat)
      /\ (AddressBook.add_record r' b1).1 = ok tt
      /\ let b2 := (AddressBook.add_record r' b1).2 in
         Dict.count (name r) b2 = 1%nat
         /\ AddressBook.find (name r) b2 = ok r'
         /\ length b2 = length b1
         /\ Dict.keys b2 = Dict.keys b1).
Proof.
  intros Hreach Hname. apply reachable_book_ok in Hreach as [Hnd _].
  pose proof (NoDup_set b (name r) r Hnd) as Hnd1.
  unfold AddressBook.add_record, AddressBook.find. simpl.
  rewrite Hname, !get_set_eq.
  repeat split.
  - intros k. apply count_le_1, Hnd.
  - apply count_after_set, Hnd.
  - intros k. apply count_le_1, Hnd1.
  - apply count_after_set, Hnd1.
  - eapply length_set, get_set_eq.
  - rewrite (keys_set (Dict.set (name r) r b)), get_set_eq. reflexivity.
Qed.

(** C9: after [add_record], [find] under the record's name returns that
    record, so its name and phone are those given; under a name that is
    not in the book, [find] and [delete] raise KeyError (the lookup error
    the command loop reports as a missing contact), and [delete] leaves
    the book alone. *)
Theorem find_after_add_and_absent b r n :
  n ∉ Dict.keys b ->
  (AddressBook.find (name r) (AddressBook.add_record r b).2 = ok r
   /\ exists r', AddressBook.find (name r) (AddressBook.add_record r b).2 = ok r'
                 /\ name r' = name r /\ phone r' = phone r)
  /\ AddressBook.find n b = raise KeyError
  /\ AddressBook.delete n b = (raise KeyError, b).
Proof.
  intros Habs. apply get_None in Habs.
  unfold AddressBook.find, AddressBook.delete, AddressBook.add_record. simpl.
  rewrite get_set_eq, Habs. repeat split. exists r. auto.
Qed.

(** ** The date parser *)

Section ParserFacts.
Import Datetime Re Strptime DateString.
Local Open Scope string_scope.

Lemma digit_char_spec k :
  0 <= k <= 9 ->
  PyStr.is_ascii_digit (digit_char k) = true
  /\ PyStr.digit_value (digit_char k) = k.
Proof.
  intros Hk.
  assert (k = 0 \/ k = 1 \/ k = 2 \/ k = 3 \/ k = 4 \/ k = 5 \/ k = 6
          \/ k = 7 \/ k = 8 \/ k = 9) as Hc by lia.
  destruct Hc as [->|[->|[->|[->|[->|[->|[->|[->|[->| ->]]]]]]]]];
    split; reflexivity.
Qed.

Lemma length_app (s1 s2 : string) :
  String.length (s1 ++ s2) = (String.length s1 + String.length s2)%nat.
Proof. induction s1 as [|c s1 IH]; simpl; [reflexivity|]. rewrite IH. reflexivity. Qed.

Lemma substring_prefix (s1 s2 : string) :
  String.substring 0 (String.length s1) (s1 ++ s2) = s1.
Proof. induction s1 as [|c s1 IH]; simpl; [destruct s2; reflexivity|]. rewrite IH. reflexivity. Qed.

Lemma consumed_app (pre rest : string) : consumed (pre ++ rest) rest = pre.
Proof.
  unfold consumed. rewrite length_app.
  replace (String.length pre + String.length rest - String.length rest)%nat
    with (String.length pre) by lia.
  apply substring_prefix.
Qed.

Lemma consumed_2 a b rest :
  consumed (String a (String b rest)) rest = String a (String b "").
Proof. exact (consumed_app (String a (String b "")) rest). Qed.

Local Arguments consumed : simpl never.

Local Ltac concrete_digits :=
  repeat match goal with
  | |- context [two_digits ?n] =>
      let v := eval vm_compute in (two_digits n) in
      change (two_digits n) with v in *
  end.

Lemma run_day d rest g {R} (k : string -> groups -> option R) x :
  1 <= d <= 31 ->
  k rest (("d", two_digits d) :: g) = Some x ->
  run directive_d (two_digits d ++ rest) g k = Some x.
Proof.
  intros Hd Hk.
  assert (Hc : In d (map Z.of_nat (seq 1 31))).
  { apply in_map_iff. exists (Z.to_nat d). split; [lia|]. apply in_seq. lia. }
  simpl in Hc.
  repeat (destruct Hc as [<-|Hc];
          [concrete_digits; cbv [append]; cbn; rewrite consumed_2, Hk; reflexivity|]).
  destruct Hc.
Qed.

Lemma run_month m rest g {R} (k : string -> groups -> option R) x :
  1 <= m <= 12 ->
  k rest (("m", two_digits m) :: g) = Some x ->
  run directive_m (two_digits m ++ rest) g k = Some x.
Proof.
  intros Hm Hk.
  assert (Hc : In m (map Z.of_nat (seq 1 12))).
  { apply in_map_iff. exists (Z.to_nat m). split; [lia|]. apply in_seq. lia. }
  simpl in Hc.
  repeat (destruct Hc as [<-|Hc];
          [concrete_digits; cbv [append]; cbn; rewrite consumed_2, Hk; reflexivity|]).
  destruct Hc.
Qed.

Lemma int_two_digits n : 1 <= n <= 31 -> PyStr.int (two_digits n) = n.
Proof.
  intros Hn.
  assert (Hc : In n (map Z.of_nat (seq 1 31))).
  { apply in_map_iff. exists (Z.to_nat n). split; [lia|]. apply in_seq. lia. }
  simpl in Hc.
  repeat (destruct Hc as [<-|Hc]; [reflexivity|]).
  destruct Hc.
Qed.

Lemma consumed_4 a b c e rest :
  consumed (String a (String b (String c (String e rest)))) rest
  = String a (String b (String c (String e ""))).
Proof. exact (consumed_app (String a (String b (String c (String e "")))) rest). Qed.

Lemma run_year a b c e rest g {R} (k : string -> groups -> option R) :
  PyStr.is_ascii_digit a = true -> PyStr.is_ascii_digit b = true ->
  PyStr.is_ascii_digit c = true -> PyStr.is_ascii_digit e = true ->
  run directive_Y (String a (String b (String c (String e rest)))) g k
  = k rest (("Y", String a (String b (String c (String e "")))) :: g).
Proof.
  intros Ha Hb Hc He. cbn. unfold PyStr.char_isdecimal.
  rewrite Ha, Hb, Hc, He, consumed_4. reflexivity.
Qed.

Lemma run_Cat r1 r2 s g {R} (k : string -> groups -> option R) :
  run (Cat r1 r2) s g k = run r1 s g (fun s' g' => run r2 s' g' k).
Proof. reflexivity. Qed.

Lemma run_Chr c rest g {R} (k : string -> groups -> option R) :
  run (Chr c) (String c "" ++ rest) g k = k rest g.
Proof. cbv [append]. cbn. rewrite Ascii.eqb_refl. reflexivity. Qed.

Lemma lstrip_digit c s :
  PyStr.is_ascii_digit c = true ->
  PyStr.lstrip_spaces (String c s) = String c s.
Proof.
  destruct c as [[] [] [] [] [] [] [] []]; intros H;
    try reflexivity; discriminate H.
Qed.

Lemma int_four_digits y : 0 <= y <= 9999 -> PyStr.int (four_digits y) = y.
Proof.
  intros Hy. unfold PyStr.int, four_digits.
  assert (H3 : 0 <= y / 1000 <= 9) by (Z.div_mod_to_equations; lia).
  assert (H2 : 0 <= y / 100 mod 10 <= 9) by (Z.div_mod_to_equations; lia).
  assert (H1 : 0 <= y / 10 mod 10 <= 9) by (Z.div_mod_to_equations; lia).
  assert (H0 : 0 <= y mod 10 <= 9) by (Z.div_mod_to_equations; lia).
  rewrite lstrip_digit by (apply digit_char_spec, H3).
  cbn [PyStr.int_digits].
  destruct (digit_char_spec _ H3) as [_ ->].
  destruct (digit_char_spec _ H2) as [_ ->].
  destruct (digit_char_spec _ H1) as [_ ->].
  destruct (digit_char_spec _ H0) as [_ ->].
  Z.div_mod_to_equations. lia.
Qed.

Lemma days_in_month_le_31 y m : 1 <= m <= 12 -> days_in_month y m <= 31.
Proof.
  intros Hm. unfold days_in_month.
  destruct (month_cases m Hm) as [->|[->|[->|[->|[->|[->|[->|[->|[->|[->|[->| ->]]]]]]]]]]];
    destruct (is_leap y); simpl; lia.
Qed.

(** A date written as dd.mm.yyyy is read back as that date. *)
Lemma strptime_dmY d : date_valid d -> strptime (dmY d) = ok d.
Proof.
  destruct d as [y m dd]. unfold date_valid. simpl. intros Hv.
  pose proof Hv as Hv'. apply check_date_fields_true in Hv' as (Hy & Hm & Hd).
  pose proof (days_in_month_le_31 y m Hm) as H31.
  assert (H3 : 0 <= y / 1000 <= 9) by (Z.div_mod_to_equations; lia).
  assert (H2 : 0 <= y / 100 mod 10 <= 9) by (Z.div_mod_to_equations; lia).
  assert (H1 : 0 <= y / 10 mod 10 <= 9) by (Z.div_mod_to_equations; lia).
  assert (H0 : 0 <= y mod 10 <= 9) by (Z.div_mod_to_equations; lia).
  assert (Hmatch :
    match_ format_regex (dmY (mkdate y m dd))
    = Some ("", [("Y", four_digits y); ("m", two_digits m); ("d", two_digits dd)])).
  { unfold match_, format_regex, dmY. cbn [day month year].
    rewrite run_Cat. apply run_day; [lia|].
    rewrite run_Cat, run_Chr, run_Cat. apply run_month; [lia|].
    rewrite run_Cat, run_Chr. unfold four_digits.
    rewrite run_year by (apply digit_char_spec; assumption).
    reflexivity. }
  unfold strptime. rewrite Hmatch. cbn [group String.eqb Ascii.eqb Bool.eqb].
  rewrite int_four_digits by lia.
  rewrite !int_two_digits by lia.
  unfold date_new. rewrite Hv. reflexivity.
Qed.

End ParserFacts.

(** C7: a string that [strptime] reads as day.month.year makes
    [add_birthday] return and store the date read, a date of the calendar,
    whatever birthday was stored before; a string it does not read makes
    [add_birthday] raise ValueError (the error for a date that does not
    parse) and leaves the record as it was; and every date of the calendar
    written dd.mm.yyyy is read as itself. *)
Theorem add_birthday_parses_or_fails s self :
  (forall d, Strptime.strptime s = ok d ->
     add_birthday s self = (ok tt, mkRecord (name self) (phone self) (Some d))
     /\ Datetime.date_valid d)
  /\ (forall e, Strptime.strptime s = raise e ->
        add_birthday s self = (raise ValueError, self))
  /\ (forall d, Datetime.date_valid d ->
        add_birthday (DateString.dmY d) self
        = (ok tt, mkRecord (name self) (phone self) (Some d))).
Proof.
  unfold add_birthday, ok, raise. repeat split.
  - rewrite H. reflexivity.
  - eapply strptime_valid, H.
  - intros e He. rewrite He. apply strptime_error in He as ->. reflexivity.
  - intros d Hd. rewrite (strptime_dmY d Hd). reflexivity.
Qed.

(** C6 on the code: a phone of ten characters U+00B2 is not a string of
    decimal digits, yet [Phone], [Record] and [update_phone] accept it and
    store it. *)
Theorem phone_accepts_superscript_digits :
  String.length Scenario.superscript_phone = 10%nat
  /\ PyStr.decimal_digits Scenario.superscript_phone = false
  /\ Phone Scenario.superscript_phone = ok Scenario.superscript_phone
  /\ Record_init "Bob" Scenario.superscript_phone
     = ok (mkRecord "Bob" Scenario.superscript_phone None)
  /\ update_phone Scenario.superscript_phone Scenario.ann
     = (ok tt, mkRecord "Ann" Scenario.superscript_phone
                 (birthday Scenario.ann)).
Proof. repeat split. Qed.

(** ** The theorems on the small address book *)

(** Ann's birthday, Saturday 15 June, is 6 days after Sunday 9 June, but is
    congratulated on Monday 17 June, 8 days after: she is left out. *)
Lemma window_on_shifted_date_witness :
  Datetime.sub_days (Datetime.mkdate 2024 6 15) Scenario.sunday = 6
  /\ exists ub,
       (Query.get_birthdays_per_week Scenario.sunday_noon Scenario.w0).1 = ok ub
       /\ ~ Query.in_some_bucket "Ann" ub.
Proof.
  split; [reflexivity|].
  apply (window_on_shifted_date Scenario.sunday_noon Scenario.w0 0 "Ann"
           Scenario.ann (Datetime.mkdate 1990 6 15)
           (Datetime.mkdate 2024 6 15) (Datetime.mkdate 2024 6 17)).
  - apply (bool_decide_unpack _). vm_compute. reflexivity.
  - reflexivity.
  - reflexivity.
  - reflexivity.
  - reflexivity.
  - vm_compute. reflexivity.
Defined.

(** Saturday 15 June 2024 is congratulated on Monday 17 June. *)
Lemma weekend_shifted_to_monday_witness :
  exists dtc,
    Query.date_to_congratulate (Datetime.mkdate 2024 6 15) = ok dtc
    /\ Datetime.date_valid dtc
    /\ Datetime.toordinal dtc
       = Datetime.toordinal (Datetime.mkdate 2024 6 15)
         + (7 - Datetime.weekday (Datetime.mkdate 2024 6 15))
    /\ Datetime.weekday dtc = 0
    /\ 1 <= Datetime.sub_days dtc (Datetime.mkdate 2024 6 15) <= 2.
Proof.
  apply (weekend_shifted_to_monday Scenario.monday (Datetime.mkdate 1990 6 15)
           (Datetime.mkdate 2024 6 15)).
  - reflexivity.
  - left. reflexivity.
Defined.

(** Dan, born on 29 February, on 10 June 2024: the year tried last is
    2025. *)
Lemma leap_day_skipped_witness :
  QuerySpec.candidate_year Scenario.monday (Datetime.mkdate 2000 2 29) = 2025
  /\ exists ub,
       (Query.get_birthdays_per_week Scenario.noon Scenario.w0).1 = ok ub
       /\ ~ Query.in_some_bucket "Dan" ub.
Proof.
  split; [reflexivity|].
  apply (leap_day_skipped Scenario.noon Scenario.w0 3 "Dan" Scenario.dan
           (Datetime.mkdate 2000 2 29)).
  - apply (bool_decide_unpack _). vm_compute. reflexivity.
  - reflexivity.
  - reflexivity.
  - reflexivity.
  - reflexivity.
  - reflexivity.
Defined.

(** Cara, born on 10 June, on 10 June 2024. *)
Lemma same_day_rolls_to_next_year_witness :
  Query.next_birthday Scenario.monday (Datetime.mkdate 2000 6 10)
    = ok (Datetime.mkdate 2025 6 10)
  /\ exists ub,
       (Query.get_birthdays_per_week Scenario.noon Scenario.w0).1 = ok ub
       /\ ~ Query.in_some_bucket "Cara" ub.
Proof.
  split.
  - apply (proj1 same_day_rolls_to_next_year Scenario.monday
             (Datetime.mkdate 2000 6 10) (Datetime.mkdate 2024 6 10));
      reflexivity.
  - apply (proj2 same_day_rolls_to_next_year Scenario.noon Scenario.w0 2%nat
             "Cara" Scenario.cara (Datetime.mkdate 2000 6 10)).
    + apply (bool_decide_unpack _). vm_compute. reflexivity.
    + reflexivity.
    + reflexivity.
    + reflexivity.
    + reflexivity.
Defined.

(** C5 as the claim has it fails on the code: two runs on the same book
    that start on the same date, Monday 10 June 2024, differ when one of
    them runs past midnight, because the clock is read again for every
    record. *)
Lemma today_read_per_record_counterexample :
  Scenario.noon 0%nat = Scenario.midnight 0%nat
  /\ (Query.get_birthdays_per_week Scenario.noon Scenario.w0).1
     <> (Query.get_birthdays_per_week Scenario.midnight Scenario.w0).1.
Proof.
  split; [reflexivity|].
  intros H.
  apply (f_equal (fun res : result (gmap Z (list string)) =>
                    match res with
                    | inr ub => Query.bucket ub 1
                    | inl _ => []
                    end)) in H.
  vm_compute in H. discriminate H.
Qed.

(** Two clocks that agree on the four readings the query takes. *)
Lemma same_readings_same_result_witness :
  (Query.get_birthdays_per_week Scenario.noon Scenario.w0).1
  = (Query.get_birthdays_per_week Scenario.late_midnight Scenario.w0).1
  /\ Query.clock_reads
       (Query.get_birthdays_per_week Scenario.noon Scenario.w0).2
     = 4%nat.
Proof.
  apply (same_readings_same_result Scenario.noon Scenario.late_midnight
           Scenario.w0 Scenario.w0).
  - reflexivity.
  - intros j Hj. simpl in Hj.
    do 4 (destruct j as [|j]; [reflexivity|]). lia.
Defined.

(** Adding Ann twice to a book that holds Ann. *)
Lemma one_record_per_name_witness :
  Dict.count "Ann"
    (AddressBook.add_record (mkRecord "Ann" "0631112233" None)
       (AddressBook.add_record (mkRecord "Ann" "0507654321" None)
          Scenario.book1).2).2 = 1%nat.
Proof.
  apply (one_record_per_name Scenario.book1
           (mkRecord "Ann" "0507654321" None)
           (mkRecord "Ann" "0631112233" None)).
  - apply (reach_add AddressBook.empty "Ann" "0501234567").
    + apply reach_empty.
    + reflexivity.
  - reflexivity.
Defined.

(** Nobody is filed under Zed. *)
Lemma find_after_add_and_absent_witness :
  AddressBook.find "Zed" Scenario.book0 = raise KeyError
  /\ AddressBook.delete "Zed" Scenario.book0 = (raise KeyError, Scenario.book0).
Proof.
  apply (find_after_add_and_absent Scenario.book0 Scenario.eve "Zed").
  apply (bool_decide_unpack _). vm_compute. reflexivity.
Defined.

(** The string 17.03.1990. *)
Lemma add_birthday_parses_or_fails_witness :
  add_birthday "17.03.1990" Scenario.eve
  = (ok tt, mkRecord "Eve" "0930000002" (Some (Datetime.mkdate 1990 3 17))).
Proof.
  apply (proj2 (proj2 (add_birthday_parses_or_fails "17.03.1990" Scenario.eve))
           (Datetime.mkdate 1990 3 17)).
  reflexivity.
Defined.

(** ** The scenarios of the specification, run on the code *)

(** On Monday 10 June 2024 Ann (Saturday 15 June) is reported under Monday;
    Bob (Tuesday 18 June, 8 days away), Cara (10 June), Dan (29 February)
    and Eve (no birthday) are not reported. *)
Example scenario_monday :
  exists ub,
    (Query.get_birthdays_per_week Scenario.noon Scenario.w0).1 = ok ub
    /\ map (Query.bucket ub) [0; 1; 2; 3; 4; 5; 6]
       = [["Ann"]; []; []; []; []; []; []].
Proof. eexists. split; [apply query_result|]. vm_compute. reflexivity. Qed.

(** On Sunday 9 June 2024 Cara's birthday is the next day, and Ann's
    shifted date is out of the window. *)
Example scenario_sunday :
  exists ub,
    (Query.get_birthdays_per_week Scenario.sunday_noon Scenario.w0).1 = ok ub
    /\ map (Query.bucket ub) [0; 1; 2; 3; 4; 5; 6]
       = [["Cara"]; []; []; []; []; []; []].
Proof. eexists. split; [apply query_result|]. vm_compute. reflexivity. Qed.

Example strptime_examples :
  Strptime.strptime "17.03.1990" = ok (Datetime.mkdate 1990 3 17)
  /\ Strptime.strptime "7.3.1990" = ok (Datetime.mkdate 1990 3 7)
  /\ Strptime.strptime "29.02.2024" = ok (Datetime.mkdate 2024 2 29)
  /\ Strptime.strptime "29.02.2023" = raise ValueError
  /\ Strptime.strptime "17.03.90" = raise ValueError
  /\ Strptime.strptime "17.03.1990 " = raise ValueError
  /\ Strptime.strptime "1990-03-17" = raise ValueError.
Proof. repeat split. Qed.

Example Phone_examples :
  Phone "0501234567" = ok "0501234567"%string
  /\ Phone "050123456" = raise InvalidPhoneNumberError
  /\ Phone "05012345678" = raise InvalidPhoneNumberError
  /\ Phone "050-123-45" = raise InvalidPhoneNumberError
  /\ Phone "" = raise InvalidPhoneNumberError.
Proof. repeat split. Qed.

Example weekday_examples :
  Datetime.weekday (Datetime.mkdate 2024 6 10) = 0
  /\ Datetime.weekday (Datetime.mkdate 2024 6 15) = 5
  /\ Datetime.weekday (Datetime.mkdate 9999 12 31) = 4
  /\ Datetime.toordinal (Datetime.mkdate 1 1 1) = 1
  /\ Datetime.fromordinal Datetime.MAXORDINAL = Datetime.mkdate 9999 12 31.
Proof. repeat split. Qed.

(** * More of the program *)

(** ** The order of dates *)

Section DateOrder.
Import Datetime.

Lemma days_before_month_succ y m :
  1 <= m <= 11 ->
  days_before_month y (m + 1) = days_before_month y m + days_in_month y m.
Proof.
  intros Hm. unfold days_before_month, days_in_month.
  assert (Hc : m = 1 \/ m = 2 \/ m = 3 \/ m = 4 \/ m = 5 \/ m = 6 \/ m = 7
               \/ m = 8 \/ m = 9 \/ m = 10 \/ m = 11) by lia.
  destruct (is_leap y);
    destruct Hc as [->|[->|[->|[->|[->|[->|[->|[->|[->|[->| ->]]]]]]]]]];
    reflexivity.
Qed.

Lemma days_in_month_pos y m : 1 <= m <= 12 -> 28 <= days_in_month y m.
Proof.
  intros Hm. unfold days_in_month.
  destruct (is_leap y);
    destruct (month_cases m Hm) as [->|[->|[->|[->|[->|[->|[->|[->|[->|[->|[->| ->]]]]]]]]]]];
    vm_compute; discriminate.
Qed.

Lemma days_before_month_mono y m (n : nat) :
  1 <= m -> m + Z.of_nat n <= 12 ->
  days_before_month y m <= days_before_month y (m + Z.of_nat n).
Proof.
  intros H1. induction n as [|n IH]; intros H2.
  - replace (m + Z.of_nat 0) with m by lia. lia.
  - replace (m + Z.of_nat (S n)) with (m + Z.of_nat n + 1) by lia.
    rewrite days_before_month_succ by lia.
    pose proof (days_in_month_pos y (m + Z.of_nat n) ltac:(lia)).
    specialize (IH ltac:(lia)). lia.
Qed.

Lemma days_before_month_next y m1 m2 :
  1 <= m1 -> m1 < m2 -> m2 <= 12 ->
  days_before_month y m1 + days_in_month y m1 <= days_before_month y m2.
Proof.
  intros H1 H12 H2. rewrite <- days_before_month_succ by lia.
  pose proof (days_before_month_mono y (m1 + 1) (Z.to_nat (m2 - m1 - 1))
                ltac:(lia) ltac:(lia)) as Hm.
  replace (m1 + 1 + Z.of_nat (Z.to_nat (m2 - m1 - 1))) with m2 in Hm by lia.
  exact Hm.
Qed.

Lemma days_before_month_nonneg y m : 1 <= m <= 12 -> 0 <= days_before_month y m.
Proof.
  intros Hm. unfold days_before_month.
  destruct (is_leap y);
    destruct (month_cases m Hm) as [->|[->|[->|[->|[->|[->|[->|[->|[->|[->|[->| ->]]]]]]]]]]];
    simpl; lia.
Qed.

(** A date lies within its year. *)
Lemma toordinal_in_year d :
  date_valid d ->
  days_before_year (year d) < toordinal d <= days_before_year (year d + 1).
Proof.
  unfold date_valid, toordinal, ymd2ord. rewrite check_date_fields_true.
  intros (_ & Hm & Hd). rewrite days_before_year_succ.
  pose proof (day_of_year_bounds _ _ _ Hm Hd). lia.
Qed.

(** A date that is not [<=] another has the greater ordinal. *)
Lemma toordinal_gt d1 d2 :
  date_valid d1 -> date_valid d2 ->
  date_le d1 d2 = false -> toordinal d2 < toordinal d1.
Proof.
  intros Hv1 Hv2 Hle.
  pose proof (toordinal_in_year d1 Hv1) as Hy1.
  pose proof (toordinal_in_year d2 Hv2) as Hy2.
  unfold date_le in Hle.
  apply orb_false_iff in Hle as [Hyl Hrest]. apply Z.ltb_ge in Hyl.
  destruct (Z.eqb_spec (year d1) (year d2)) as [Hye|Hyne].
  - simpl in Hrest. apply orb_false_iff in Hrest as [Hml Hdl].
    apply Z.ltb_ge in Hml.
    unfold date_valid in Hv1, Hv2. rewrite check_date_fields_true in Hv1, Hv2.
    destruct Hv1 as (_ & Hm1 & Hd1), Hv2 as (_ & Hm2 & Hd2).
    unfold toordinal, ymd2ord. rewrite Hye in *.
    destruct (Z.eqb_spec (month d1) (month d2)) as [Hme|Hmne].
    + simpl in Hdl. apply Z.leb_gt in Hdl. rewrite Hme. lia.
    + pose proof (days_before_month_next (year d2) (month d2) (month d1)
                    ltac:(lia) ltac:(lia) ltac:(lia)). lia.
  - pose proof (days_before_year_mono (year d2 + 1) (year d1) ltac:(lia)). lia.
Qed.

End DateOrder.

(** ** What is reported, and where *)

Section Reported.
Import Datetime Query QuerySpec.

(** The pieces of a weekday computed for a record. *)
Lemma congratulation_weekday_Some today b wd :
  congratulation_weekday today b = Some wd <->
  exists nb dtc,
    next_birthday today b = ok nb /\ date_to_congratulate nb = ok dtc
    /\ sub_days dtc today <= 7 /\ wd = weekday dtc.
Proof.
  unfold congratulation_weekday, ok. split.
  - destruct (next_birthday today b) as [e|nb]; [discriminate|].
    destruct (date_to_congratulate nb) as [e|dtc] eqn:Ed; [discriminate|].
    destruct (Z.ltb_spec 7 (sub_days dtc today)); [discriminate|].
    intros [= <-]. exists nb, dtc. auto.
  - intros (nb & dtc & -> & -> & Hle & ->).
    destruct (Z.ltb_spec 7 (sub_days dtc today)); [lia|reflexivity].
Qed.

Lemma ok_inj {A} (a b : A) : ok a = ok b -> a = b.
Proof. unfold ok. congruence. Qed.

(** The date to congratulate is never on a weekend. *)
Lemma date_to_congratulate_workweek nb dtc :
  date_valid nb -> date_to_congratulate nb = ok dtc -> 0 <= weekday dtc <= 4.
Proof.
  intros Hv Hd. pose proof (weekday_range nb) as Hr.
  assert (Hend : weekday nb = 5 \/ weekday nb = 6 ->
                 0 <= weekday dtc <= 4).
  { intros Hw. rewrite date_to_congratulate_weekend in Hd by auto.
    apply ok_inj in Hd. subst dtc.
    pose proof (weekend_shift_in_range nb Hv Hw) as Hs.
    rewrite (weekday_after_shift nb
               (fromordinal (toordinal nb + (7 - weekday nb))));
      [lia|exact Hw|apply toordinal_fromordinal; lia]. }
  destruct (Z.eq_dec (weekday nb) 5) as [H5|H5]; [auto|].
  destruct (Z.eq_dec (weekday nb) 6) as [H6|H6]; [auto|].
  rewrite date_to_congratulate_workday in Hd by auto.
  apply ok_inj in Hd. subst dtc. lia.
Qed.

(** The next birthday is after today. *)
Lemma next_birthday_future today b nb :
  date_valid today -> next_birthday today b = ok nb ->
  toordinal today < toordinal nb.
Proof.
  intros Hv Hnb. pose proof (next_birthday_valid _ _ _ Hnb) as Hvn.
  unfold next_birthday, replace_year, rbind, ok in Hnb.
  destruct (date_new (year today) (month b) (day b)) as [e|nb0] eqn:E0;
    [discriminate|].
  apply date_new_ok in E0 as [-> Hv0].
  destruct (date_le _ today) eqn:Hle.
  - apply date_new_ok in Hnb as [-> _]. simpl in *.
    pose proof (toordinal_in_year today Hv).
    pose proof (toordinal_in_year _ Hvn) as Hn. simpl in Hn. lia.
  - injection Hnb as <-. apply toordinal_gt; assumption.
Qed.

End Reported.

Section BucketShape.
Import Datetime Query QuerySpec.
Variable clock : nat -> date.

Lemma congratulation_weekday_workweek today b wd :
  congratulation_weekday today b = Some wd -> 0 <= wd <= 4.
Proof.
  intros H. apply congratulation_weekday_Some in H
    as (nb & dtc & Hnb & Hdtc & _ & ->).
  eapply date_to_congratulate_workweek; [|exact Hdtc].
  eapply next_birthday_valid, Hnb.
Qed.

Lemma buckets_ok_append ub wd n :
  buckets_ok ub -> 0 <= wd <= 4 -> buckets_ok (append ub wd n).
Proof.
  intros Hub Hwd wd' names. unfold append.
  destruct (decide (wd = wd')) as [<-|Hne].
  - rewrite lookup_insert_eq. intros [= <-]. split; [exact Hwd|].
    intros H. apply app_eq_nil in H as [_ H]. discriminate.
  - rewrite lookup_insert_ne by exact Hne. apply Hub.
Qed.

Lemma upcoming_buckets_ok items : forall k ub,
  buckets_ok ub -> buckets_ok (upcoming clock k items ub).
Proof.
  induction items as [|[n r] items IH]; intros k ub Hub; simpl; [exact Hub|].
  destruct (birthday r) as [b|]; [|apply IH, Hub].
  apply IH. destruct (congratulation_weekday (clock k) b) as [wd|] eqn:E;
    [|exact Hub].
  apply buckets_ok_append; [exact Hub|].
  eapply congratulation_weekday_workweek, E.
Qed.

(** Every bucket continues the one before the loop with names of [items],
    in the order of [items]. *)
Lemma upcoming_sublist wd items : forall k ub,
  exists l,
    bucket (upcoming clock k items ub) wd = bucket ub wd ++ l
    /\ l `sublist_of` Dict.keys items.
Proof.
  induction items as [|[n r] items IH]; intros k ub; simpl.
  - exists []. rewrite app_nil_r. split; [reflexivity|constructor].
  - unfold Dict.keys in *. csimpl.
    destruct (birthday r) as [b|].
    + destruct (congratulation_weekday (clock k) b) as [wd0|].
      * destruct (IH (S k) (append ub wd0 n)) as (l & -> & Hl).
        rewrite bucket_append. destruct (decide (wd0 = wd)) as [->|Hne].
        -- exists (n :: l). rewrite <- app_assoc. split; [reflexivity|].
           apply sublist_skip, Hl.
        -- exists l. split; [reflexivity|]. apply sublist_cons, Hl.
      * destruct (IH (S k) ub) as (l & -> & Hl).
        exists l. split; [reflexivity|]. apply sublist_cons, Hl.
    + destruct (IH k ub) as (l & -> & Hl).
      exists l. split; [reflexivity|]. apply sublist_cons, Hl.
Qed.

End BucketShape.

(** X1: the query never raises, not even for a weekend birthday at the end
    of the calendar; the keys of its result are weekdays from Monday to
    Friday, and no key holds an empty list. *)
Theorem query_returns_workweek_buckets clock w :
  exists ub,
    (Query.get_birthdays_per_week clock w).1 = ok ub
    /\ forall wd names, ub !! wd = Some names -> 0 <= wd <= 4 /\ names <> [].
Proof.
  eexists. split; [apply query_result|].
  apply upcoming_buckets_ok. intros wd names H.
  rewrite lookup_empty in H. discriminate.
Qed.

(** X2: in a book with distinct keys, the entry of a name is reported
    under a weekday exactly when it has a birthday whose next occurrence
    and date to congratulate exist, the latter at most 7 days after the
    clock reading taken for the entry, and the weekday is that date's. *)
Theorem reported_exactly_when_in_window clock w i n r wd :
  NoDup (Dict.keys (Query.book w)) ->
  Query.book w !! i = Some (n, r) ->
  let today :=
    clock (Query.clock_reads w + Query.readings (take i (Query.book w)))%nat in
  forall ub, (Query.get_birthdays_per_week clock w).1 = ok ub ->
    (n ∈ Query.bucket ub wd
     <-> exists b nb dtc,
           birthday r = Some b
           /\ Query.next_birthday today b = ok nb
           /\ Query.date_to_congratulate nb = ok dtc
           /\ Datetime.sub_days dtc today <= 7
           /\ wd = Datetime.weekday dtc).
Proof.
  intros Hnd Hi today ub Hub. rewrite query_result in Hub.
  apply ok_inj in Hub. subst ub.
  rewrite (reported_iff clock _ _ i n r wd Hnd Hi). fold today. split.
  - intros (b & Hb & Hc). apply congratulation_weekday_Some in Hc
      as (nb & dtc & ?). exists b, nb, dtc. tauto.
  - intros (b & nb & dtc & Hb & H). exists b. split; [exact Hb|].
    apply congratulation_weekday_Some. exists nb, dtc. exact H.
Qed.

(** X3: when the clock shows dates of the calendar, whoever is reported
    under a weekday is congratulated 1 to 7 days after the clock reading
    taken for the entry, never on the day itself, and the weekday is that
    many days after the reading's weekday. *)
Theorem reported_is_in_next_seven_days clock w ub wd n :
  (forall k, Datetime.date_valid (clock k)) ->
  (Query.get_birthdays_per_week clock w).1 = ok ub ->
  n ∈ Query.bucket ub wd ->
  exists i r b nb dtc,
    Query.book w !! i = Some (n, r) /\ birthday r = Some b
    /\ let today :=
         clock (Query.clock_reads w
                + Query.readings (take i (Query.book w)))%nat in
       Query.next_birthday today b = ok nb
       /\ Query.date_to_congratulate nb = ok dtc
       /\ 1 <= Datetime.sub_days dtc today <= 7
       /\ wd = Datetime.weekday dtc
       /\ wd = (Datetime.weekday today + Datetime.sub_days dtc today) mod 7.
Proof.
  intros Hclock Hub Hin. rewrite query_result in Hub.
  apply ok_inj in Hub. subst ub.
  apply upcoming_elem in Hin as [Hin|(i & r & b & Hi & Hb & Hc)].
  { rewrite bucket_empty in Hin. inversion Hin. }
  apply congratulation_weekday_Some in Hc as (nb & dtc & Hnb & Hdtc & Hle & ->).
  exists i, r, b, nb, dtc. repeat split; try assumption.
  - pose proof (next_birthday_future _ _ _ (Hclock _) Hnb) as Hfut.
    destruct (date_to_congratulate_total nb (next_birthday_valid _ _ _ Hnb))
      as (dtc' & Hdtc' & Hge).
    rewrite Hdtc in Hdtc'. apply ok_inj in Hdtc'. subst dtc'.
    unfold Datetime.sub_days. lia.
  - unfold Datetime.weekday, Datetime.sub_days.
    Z.div_mod_to_equations. lia.
Qed.

(** X4: each bucket lists names of the book in the order of the book,
    each entry at most once. *)
Theorem buckets_follow_book_order clock w wd :
  exists ub,
    (Query.get_birthdays_per_week clock w).1 = ok ub
    /\ Query.bucket ub wd `sublist_of` Dict.keys (Query.book w).
Proof.
  eexists. split; [apply query_result|].
  destruct (upcoming_sublist clock wd (Query.book w) (Query.clock_reads w) ∅)
    as (l & -> & Hl).
  rewrite bucket_empty. exact Hl.
Qed.

(** ** Adding, finding and deleting *)

Section DictMore.
Context {V : Type}.
Implicit Types (d : list (string * V)) (k : string) (v : V).

Lemma get_remove_ne d k k0 : k <> k0 -> Dict.get k0 (Dict.remove k d) = Dict.get k0 d.
Proof.
  intros Hne. induction d as [|[k' v'] d IH]; simpl; [reflexivity|].
  destruct (String.eqb_spec k' k) as [->|Hne']; simpl.
  - apply String.eqb_neq in Hne. rewrite Hne. reflexivity.
  - rewrite IH. reflexivity.
Qed.

Lemma get_remove_eq d k : NoDup (Dict.keys d) -> Dict.get k (Dict.remove k d) = None.
Proof.
  unfold Dict.keys. induction d as [|[k' v'] d IH]; csimpl; [reflexivity|].
  rewrite NoDup_cons. intros [Hni Hnd].
  destruct (String.eqb_spec k' k) as [->|Hne]; simpl.
  - apply get_None. exact Hni.
  - apply String.eqb_neq in Hne. rewrite Hne. apply IH, Hnd.
Qed.

Lemma length_remove d k v :
  Dict.get k d = Some v -> S (length (Dict.remove k d)) = length d.
Proof.
  induction d as [|[k' v'] d IH]; simpl; [discriminate|].
  destruct (String.eqb k' k); simpl; [reflexivity|].
  intros H. rewrite IH by exact H. reflexivity.
Qed.

Lemma keys_remove_sublist d k : Dict.keys (Dict.remove k d) `sublist_of` Dict.keys d.
Proof.
  unfold Dict.keys. induction d as [|[k' v'] d IH]; csimpl; [constructor|].
  destruct (String.eqb k' k); csimpl.
  - apply sublist_cons. reflexivity.
  - apply sublist_skip, IH.
Qed.

Lemma set_new d k v : Dict.get k d = None -> Dict.set k v d = d ++ [(k, v)].
Proof.
  induction d as [|[k' v'] d IH]; simpl; [reflexivity|].
  destruct (String.eqb k' k); [discriminate|].
  intros H. rewrite IH by exact H. reflexivity.
Qed.

Lemma remove_last d k v : Dict.get k d = None -> Dict.remove k (d ++ [(k, v)]) = d.
Proof.
  induction d as [|[k' v'] d IH]; simpl.
  - rewrite String.eqb_refl. reflexivity.
  - destruct (String.eqb k' k); [discriminate|].
    intros H. rewrite IH by exact H. reflexivity.
Qed.

Lemma get_Some_key d k : k ∈ Dict.keys d -> exists v, Dict.get k d = Some v.
Proof.
  intros Hin. destruct (Dict.get k d) as [v|] eqn:E; [eauto|].
  apply get_None in E. contradiction.
Qed.

End DictMore.

(** X5: deleting a name that is in a book with distinct keys returns
    normally and removes that entry alone: the name is then not found, every
    other name is found as before, and the keys left keep their order. *)
Theorem delete_removes_one_entry b n :
  NoDup (Dict.keys b) -> n ∈ Dict.keys b ->
  (AddressBook.delete n b).1 = ok tt
  /\ AddressBook.find n (AddressBook.delete n b).2 = raise KeyError
  /\ (forall n', n' <> n ->
        AddressBook.find n' (AddressBook.delete n b).2 = AddressBook.find n' b)
  /\ S (length (AddressBook.delete n b).2) = length b
  /\ Dict.keys (AddressBook.delete n b).2 `sublist_of` Dict.keys b.
Proof.
  intros Hnd Hin. destruct (get_Some_key b n Hin) as [r Hr].
  unfold AddressBook.delete, AddressBook.find. rewrite Hr. simpl.
  rewrite get_remove_eq by exact Hnd. repeat split.
  - intros n' Hne. rewrite get_remove_ne by congruence. reflexivity.
  - eapply length_remove, Hr.
  - apply keys_remove_sublist.
Qed.

(** X6: adding a record under a new name puts it at the end of the book,
    and deleting that name again gives back the book as it was. *)
Theorem add_then_delete_restores b r :
  name r ∉ Dict.keys b ->
  (AddressBook.add_record r b).2 = b ++ [(name r, r)]
  /\ AddressBook.delete (name r) (AddressBook.add_record r b).2 = (ok tt, b).
Proof.
  intros Hni. apply get_None in Hni.
  unfold AddressBook.add_record, AddressBook.delete. simpl.
  rewrite get_set_eq, (set_new b _ _ Hni), (remove_last b _ _ Hni).
  split; reflexivity.
Qed.

(** X7: adding a record touches no other name: every other name is found
    as before, and a name that was in the book keeps its place among the
    keys. *)
Theorem add_record_keeps_the_rest b r n' :
  n' <> name r ->
  AddressBook.find n' (AddressBook.add_record r b).2 = AddressBook.find n' b
  /\ (n' ∈ Dict.keys b ->
      exists i, Dict.keys b !! i = Some n'
                /\ Dict.keys (AddressBook.add_record r b).2 !! i = Some n').
Proof.
  intros Hne. unfold AddressBook.find, AddressBook.add_record. simpl.
  rewrite get_set_ne by congruence. split; [reflexivity|].
  intros Hin. apply list_elem_of_lookup in Hin as [i Hi]. exists i.
  split; [exact Hi|]. rewrite keys_set.
  destruct (Dict.get (name r) b); [exact Hi|].
  apply lookup_app_l_Some, Hi.
Qed.

(** ** The command handlers *)

Section HandlerFacts.
Local Open Scope string_scope.

Lemma on_record_cases n f b :
  AddressBook.on_record n f b
  = match Dict.get n b with
    | None => (raise KeyError, b)
    | Some r => ((f r).1, Dict.set n (f r).2 b)
    end.
Proof.
  unfold AddressBook.on_record, AddressBook.find.
  destruct (Dict.get n b) as [r|]; [|reflexivity].
  unfold ok. cbv beta iota. destruct (f r); reflexivity.
Qed.

Lemma update_phone_cases p r :
  update_phone p r
  = match Phone p with
    | inl _ => (raise InvalidPhoneNumberError, r)
    | inr _ => (ok tt, mkRecord (name r) p (birthday r))
    end.
Proof.
  unfold update_phone. destruct (Phone p) as [e|x] eqn:E.
  - apply Phone_error in E as ->. reflexivity.
  - apply Phone_ok in E as [-> _]. reflexivity.
Qed.

Lemma add_birthday_cases s r :
  add_birthday s r
  = match Strptime.strptime s with
    | inl _ => (raise ValueError, r)
    | inr d => (ok tt, mkRecord (name r) (phone r) (Some d))
    end.
Proof.
  unfold add_birthday. destruct (Strptime.strptime s) as [e|d] eqn:E;
    [|reflexivity].
  apply strptime_error in E as ->. reflexivity.
Qed.

Lemma Record_init_cases n p :
  Record_init n p
  = match Phone p with
    | inl _ => raise InvalidPhoneNumberError
    | inr _ => ok (mkRecord n p None)
    end.
Proof.
  unfold Record_init, rbind. destruct (Phone p) as [e|x] eqn:E.
  - apply Phone_error in E as ->. reflexivity.
  - apply Phone_ok in E as [-> _]. reflexivity.
Qed.

(** What [change_contact] does with two arguments. *)
Lemma change_contact_cases n p b :
  Cli.change_contact [n; p] b
  = match Dict.get n b with
    | None => (ok (Cli.VStr "A contact with that name doesn't exist."), b)
    | Some r =>
        match Phone p with
        | inl _ => (ok (Cli.VStr "Invalid phone number."), b)
        | inr _ =>
            (ok (Cli.VStr "Contact changed."),
             Dict.set n (mkRecord (name r) p (birthday r)) b)
        end
    end.
Proof.
  unfold Cli.change_contact, Cli.input_error, Cli.change_contact_func.
  rewrite on_record_cases. destruct (Dict.get n b) as [r|] eqn:E; [|reflexivity].
  rewrite update_phone_cases. destruct (Phone p); simpl; [|reflexivity].
  rewrite (set_same b n r E). reflexivity.
Qed.

(** What the [add-birthday] handler does with two arguments. *)
Lemma add_birthday_handler_cases n s b :
  Cli.add_birthday [n; s] b
  = match Dict.get n b with
    | None => (ok (Cli.VStr "A contact with that name doesn't exist."), b)
    | Some r =>
        match Strptime.strptime s with
        | inl _ => (ok (Cli.VStr "Invalid parameters."), b)
        | inr d =>
            (ok (Cli.VStr "Birthday added."),
             Dict.set n (mkRecord (name r) (phone r) (Some d)) b)
        end
    end.
Proof.
  unfold Cli.add_birthday, Cli.input_error, Cli.add_birthday_func.
  rewrite on_record_cases. destruct (Dict.get n b) as [r|] eqn:E; [|reflexivity].
  rewrite add_birthday_cases. destruct (Strptime.strptime s); simpl; [|reflexivity].
  rewrite (set_same b n r E). reflexivity.
Qed.

Lemma add_contact_cases n p b :
  Cli.add_contact [n; p] b
  = match Phone p with
    | inl _ => (ok (Cli.VStr "Invalid phone number."), b)
    | inr _ => (ok (Cli.VStr "Contact added."), Dict.set n (mkRecord n p None) b)
    end.
Proof.
  unfold Cli.add_contact, Cli.input_error, Cli.add_contact_func.
  rewrite Record_init_cases. destruct (Phone p); reflexivity.
Qed.

Lemma show_phone_cases n b :
  Cli.show_phone [n] b
  = match Dict.get n b with
    | None => (ok (Cli.VStr "A contact with that name doesn't exist."), b)
    | Some r => (ok (Cli.VStr (phone r)), b)
    end.
Proof.
  unfold Cli.show_phone, Cli.input_error, Cli.show_phone_func, AddressBook.find.
  destruct (Dict.get n b); reflexivity.
Qed.

Lemma show_birthday_cases n b :
  Cli.show_birthday [n] b
  = match Dict.get n b with
    | None => (ok (Cli.VStr "A contact with that name doesn't exist."), b)
    | Some r =>
        (ok (match birthday r with
             | Some d => Cli.VDate d
             | None => Cli.VNone
             end), b)
    end.
Proof.
  unfold Cli.show_birthday, Cli.input_error, Cli.show_birthday_func,
    AddressBook.find.
  destruct (Dict.get n b); reflexivity.
Qed.

(** With a wrong number of arguments every handler answers
    "Invalid parameters." and leaves the book. *)
Lemma two_argument_handlers_arity args b :
  length args <> 2%nat ->
  Cli.add_contact args b = (ok (Cli.VStr "Invalid parameters."), b)
  /\ Cli.change_contact args b = (ok (Cli.VStr "Invalid parameters."), b)
  /\ Cli.add_birthday args b = (ok (Cli.VStr "Invalid parameters."), b).
Proof.
  intros Hl.
  destruct args as [|a1 [|a2 [|a3 args]]]; simpl in Hl; try lia;
    repeat split; reflexivity.
Qed.

Lemma one_argument_handlers_arity args b :
  length args <> 1%nat ->
  Cli.show_phone args b = (ok (Cli.VStr "Invalid parameters."), b)
  /\ Cli.show_birthday args b = (ok (Cli.VStr "Invalid parameters."), b).
Proof.
  intros Hl.
  destruct args as [|a1 [|a2 args]]; simpl in Hl; try lia;
    repeat split; reflexivity.
Qed.

End HandlerFacts.

Lemma handlers_outcome args b :
  (exists msg b', Cli.add_contact args b = (ok (Cli.VStr msg), b')
                  /\ (msg = "Contact added."%string \/ b' = b))
  /\ (exists msg b', Cli.change_contact args b = (ok (Cli.VStr msg), b')
                     /\ (msg = "Contact changed."%string \/ b' = b))
  /\ (exists msg b', Cli.add_birthday args b = (ok (Cli.VStr msg), b')
                     /\ (msg = "Birthday added."%string \/ b' = b))
  /\ (exists v, Cli.show_phone args b = (ok v, b))
  /\ (exists v, Cli.show_birthday args b = (ok v, b)).
Proof.
  assert (H2 : length args = 2%nat \/ length args <> 2%nat) by lia.
  assert (H1 : length args = 1%nat \/ length args <> 1%nat) by lia.
  split; [|split; [|split; [|split]]].
  - destruct H2 as [H2|H2].
    + destruct args as [|n [|p [|? ?]]]; try discriminate H2.
      rewrite add_contact_cases. destruct (Phone p); eauto.
    + destruct (two_argument_handlers_arity args b H2) as (-> & _). eauto.
  - destruct H2 as [H2|H2].
    + destruct args as [|n [|p [|? ?]]]; try discriminate H2.
      rewrite change_contact_cases.
      destruct (Dict.get n b); [destruct (Phone p)|]; eauto.
    + destruct (two_argument_handlers_arity args b H2) as (_ & -> & _). eauto.
  - destruct H2 as [H2|H2].
    + destruct args as [|n [|s [|? ?]]]; try discriminate H2.
      rewrite add_birthday_handler_cases.
      destruct (Dict.get n b); [destruct (Strptime.strptime s)|]; eauto.
    + destruct (two_argument_handlers_arity args b H2) as (_ & _ & ->). eauto.
  - destruct H1 as [H1|H1].
    + destruct args as [|n [|? ?]]; try discriminate H1.
      rewrite show_phone_cases. destruct (Dict.get n b); eauto.
    + destruct (one_argument_handlers_arity args b H1) as (-> & _). eauto.
  - destruct H1 as [H1|H1].
    + destruct args as [|n [|? ?]]; try discriminate H1.
      rewrite show_birthday_cases. destruct (Dict.get n b); eauto.
    + destruct (one_argument_handlers_arity args b H1) as (_ & ->). eauto.
Qed.

(** X8: no handler lets an exception out, whatever the arguments and the
    book: each returns a value, the two lookups never change the book, and
    the three updates change it only when they answer with their success
    message. *)
Theorem handlers_answer_and_keep_book_on_error args b :
  (exists msg b', Cli.add_contact args b = (ok (Cli.VStr msg), b')
                  /\ (msg = "Contact added."%string \/ b' = b))
  /\ (exists msg b', Cli.change_contact args b = (ok (Cli.VStr msg), b')
                     /\ (msg = "Contact changed."%string \/ b' = b))
  /\ (exists msg b', Cli.add_birthday args b = (ok (Cli.VStr msg), b')
                     /\ (msg = "Birthday added."%string \/ b' = b))
  /\ (exists v, Cli.show_phone args b = (ok v, b))
  /\ (exists v, Cli.show_birthday args b = (ok v, b)).
Proof. exact (handlers_outcome args b). Qed.

(** X9: [add] with a phone that [Phone] accepts answers "Contact added."
    and files a new record under the name: its phone is then shown as
    given and it has no birthday, also when the name had a record with a
    birthday before. *)
Theorem add_contact_files_a_new_record n p b :
  Phone p = ok p ->
  let b1 := (Cli.add_contact [n; p] b).2 in
  (Cli.add_contact [n; p] b).1 = ok (Cli.VStr "Contact added.")
  /\ Cli.show_phone [n] b1 = (ok (Cli.VStr p), b1)
  /\ Cli.show_birthday [n] b1 = (ok Cli.VNone, b1).
Proof.
  intros Hp. rewrite add_contact_cases. unfold ok in Hp. rewrite Hp. simpl.
  rewrite show_phone_cases, show_birthday_cases, get_set_eq. auto.
Qed.

(** X10: [change] on a name that is in the book, with a phone that
    [Phone] accepts, answers "Contact changed."; afterwards the record has
    the new phone and its old name and birthday, the keys of the book are
    the same in the same order, and every other name is found as before. *)
Theorem change_contact_keeps_birthday n p b r :
  AddressBook.find n b = ok r -> Phone p = ok p ->
  let b1 := (Cli.change_contact [n; p] b).2 in
  (Cli.change_contact [n; p] b).1 = ok (Cli.VStr "Contact changed.")
  /\ AddressBook.find n b1 = ok (mkRecord (name r) p (birthday r))
  /\ Dict.keys b1 = Dict.keys b
  /\ forall n', n' <> n -> AddressBook.find n' b1 = AddressBook.find n' b.
Proof.
  unfold AddressBook.find, ok. intros Hr Hp.
  destruct (Dict.get n b) as [r0|] eqn:E; [|discriminate].
  injection Hr as ->.
  rewrite change_contact_cases, E, Hp. simpl.
  rewrite get_set_eq, keys_set, E. repeat split.
  intros n' Hne. rewrite get_set_ne by congruence. reflexivity.
Qed.

(** X11: for a name that is not in the book, [change], [phone],
    [add-birthday] and [show-birthday] all answer that the contact does
    not exist and leave the book, whether or not the phone or the date
    given would be accepted. *)
Theorem missing_contact_is_reported_first n x b :
  n ∉ Dict.keys b ->
  let missing := ok (Cli.VStr "A contact with that name doesn't exist.") in
  Cli.change_contact [n; x] b = (missing, b)
  /\ Cli.add_birthday [n; x] b = (missing, b)
  /\ Cli.show_phone [n] b = (missing, b)
  /\ Cli.show_birthday [n] b = (missing, b).
Proof.
  intros Hni. apply get_None in Hni.
  rewrite change_contact_cases, add_birthday_handler_cases, show_phone_cases,
    show_birthday_cases, Hni. auto.
Qed.

(** X12: for a name that is in the book and a date of the calendar written
    dd.mm.yyyy, [add-birthday] answers "Birthday added."; then
    [show-birthday] returns that date, and [phone] shows the phone as
    before. *)
Theorem birthday_added_is_shown n d b r :
  AddressBook.find n b = ok r -> Datetime.date_valid d ->
  let b1 := (Cli.add_birthday [n; DateString.dmY d] b).2 in
  (Cli.add_birthday [n; DateString.dmY d] b).1 = ok (Cli.VStr "Birthday added.")
  /\ Cli.show_birthday [n] b1 = (ok (Cli.VDate d), b1)
  /\ Cli.show_phone [n] b1 = (ok (Cli.VStr (phone r)), b1).
Proof.
  unfold AddressBook.find, ok. intros Hr Hd.
  destruct (Dict.get n b) as [r0|] eqn:E; [|discriminate].
  injection Hr as ->.
  rewrite add_birthday_handler_cases, E, (strptime_dmY d Hd). simpl.
  rewrite show_birthday_cases, show_phone_cases, get_set_eq. auto.
Qed.

(** ** Splitting a command line *)

Section SplitFacts.
Import PyText.
Local Open Scope string_scope.

Lemma all_chars_app p s1 s2 :
  PyStr.all_chars p (s1 ++ s2) = PyStr.all_chars p s1 && PyStr.all_chars p s2.
Proof.
  induction s1 as [|c s1 IH]; cbv [append]; fold append; simpl; [reflexivity|].
  rewrite IH, andb_assoc. reflexivity.
Qed.

Lemma append_nil_r (s : string) : s ++ "" = s.
Proof.
  induction s as [|c s IH]; cbv [append]; fold append; [reflexivity|].
  rewrite IH. reflexivity.
Qed.

Lemma append_assoc (s1 s2 s3 : string) : (s1 ++ s2) ++ s3 = s1 ++ (s2 ++ s3).
Proof.
  induction s1 as [|c s1 IH]; cbv [append]; fold append; [reflexivity|].
  rewrite IH. reflexivity.
Qed.

Lemma append_eq_nil (s1 s2 : string) : s1 ++ s2 = "" -> s1 = "" /\ s2 = "".
Proof.
  destruct s1; cbv [append]; fold append; [auto|discriminate].
Qed.

Lemma split_from_nil cur s :
  split_from cur s = [] <-> cur = "" /\ PyStr.all_chars isspace s = true.
Proof.
  revert cur. induction s as [|c s IH]; intros cur; simpl.
  - destruct cur; split; try tauto; try discriminate. intros [H _]. discriminate.
  - destruct (isspace c); simpl.
    + destruct cur.
      * rewrite IH. tauto.
      * split; [discriminate|]. intros [H _]. discriminate.
    + rewrite IH. split; [|intros [_ H]; discriminate].
      intros [H _]. apply append_eq_nil in H as [_ H]. discriminate.
Qed.

Lemma split_from_tokens s : forall cur t,
  solid cur = true -> t ∈ split_from cur s -> t <> "" /\ solid t = true.
Proof.
  induction s as [|c s IH]; intros cur t Hcur; simpl.
  - destruct cur; intros H; [inversion H|].
    apply list_elem_of_singleton in H as ->. split; [discriminate|exact Hcur].
  - destruct (isspace c) eqn:Ec.
    + destruct cur as [|c0 cur0].
      * apply IH. reflexivity.
      * intros H. apply elem_of_cons in H as [->|H].
        -- split; [discriminate|exact Hcur].
        -- eapply IH; [|exact H]. reflexivity.
    + apply IH. unfold solid in *. rewrite all_chars_app, Hcur. simpl.
      rewrite Ec. reflexivity.
Qed.

(** Reading on through a run without white space. *)
Lemma split_from_solid t : forall cur rest,
  solid t = true -> split_from cur (t ++ rest) = split_from (cur ++ t) rest.
Proof.
  induction t as [|c t IH]; intros cur rest Ht.
  - rewrite append_nil_r. reflexivity.
  - cbv [append]; fold append. simpl in Ht |- *.
    apply andb_true_iff in Ht as [Hc Ht]. apply negb_true_iff in Hc.
    rewrite Hc, IH by exact Ht. rewrite append_assoc. reflexivity.
Qed.

Lemma split_join tokens :
  Forall (fun t => t <> "" /\ solid t = true) tokens ->
  split (join " " tokens) = tokens.
Proof.
  unfold split. induction 1 as [|t ts [Hne Ht] Hts IH]; [reflexivity|].
  destruct ts as [|t' ts].
  - simpl. rewrite <- (append_nil_r t) at 1.
    rewrite split_from_solid by exact Ht. simpl.
    destruct t; [congruence|reflexivity].
  - change (join " " (t :: t' :: ts)) with (t ++ " " ++ join " " (t' :: ts)).
    rewrite split_from_solid by exact Ht.
    remember (join " " (t' :: ts)) as J eqn:EJ.
    cbv [append]; fold append. simpl.
    destruct t; [congruence|]. rewrite IH. reflexivity.
Qed.

Lemma lstrip_solid t : solid t = true -> lstrip t = t.
Proof.
  destruct t as [|c t]; [reflexivity|]. simpl.
  intros H. apply andb_true_iff in H as [Hc _]. apply negb_true_iff in Hc.
  rewrite Hc. reflexivity.
Qed.

Lemma rstrip_solid t : solid t = true -> rstrip t = t.
Proof.
  induction t as [|c t IH]; [reflexivity|]. simpl.
  intros H. apply andb_true_iff in H as [Hc Ht]. apply negb_true_iff in Hc.
  rewrite IH by exact Ht. rewrite Hc. destruct t; reflexivity.
Qed.

Lemma strip_solid t : solid t = true -> strip t = t.
Proof.
  intros H. unfold strip. rewrite lstrip_solid by exact H.
  apply rstrip_solid, H.
Qed.

End SplitFacts.

(** ** The command loop *)

Section LoopFacts.
Import Query.
Local Open Scope string_scope.

Lemma handler_reachable args b :
  reachable b ->
  reachable (Cli.add_contact args b).2
  /\ reachable (Cli.change_contact args b).2
  /\ reachable (Cli.add_birthday args b).2
  /\ reachable (Cli.show_phone args b).2
  /\ reachable (Cli.show_birthday args b).2.
Proof.
  intros Hb.
  destruct (handlers_outcome args b)
    as (_ & _ & _ & [v1 ->] & [v2 ->]).
  assert (H2 : length args = 2%nat \/ length args <> 2%nat) by lia.
  destruct H2 as [H2|H2].
  - destruct args as [|n [|x [|? ?]]]; try discriminate H2.
    rewrite add_contact_cases, change_contact_cases, add_birthday_handler_cases.
    repeat split; try exact Hb.
    + destruct (Phone x) eqn:E; [exact Hb|]. simpl.
      apply (reach_add b n x (mkRecord n x None) Hb).
      rewrite Record_init_cases, E. reflexivity.
    + pose proof (reach_update_phone b n x Hb) as H.
      rewrite on_record_cases in H.
      destruct (Dict.get n b) as [r|]; [|exact Hb].
      rewrite update_phone_cases in H. destruct (Phone x); [exact Hb|exact H].
    + pose proof (reach_add_birthday b n x Hb) as H.
      rewrite on_record_cases in H.
      destruct (Dict.get n b) as [r|]; [|exact Hb].
      rewrite add_birthday_cases in H.
      destruct (Strptime.strptime x); [exact Hb|exact H].
  - destruct (two_argument_handlers_arity args b H2) as (-> & -> & ->).
    repeat split; exact Hb.
Qed.

Variable clock : nat -> Datetime.date.

Lemma print_value_on_book (h : Cli.handler) args w v b' :
  h args (book w) = (ok v, b') ->
  Cli.print_value (Cli.on_book h args) w
  = (ok [Cli.Print (Cli.str v)], mkWorld b' (clock_reads w)).
Proof.
  intros H. unfold Cli.print_value, bind, Cli.on_book. rewrite H. reflexivity.
Qed.

(** A round of the loop writes its lines and goes on: nothing is raised,
    and the book stays one the program can build. *)
Lemma dispatch_outcome c args w :
  exists out w',
    Cli.dispatch clock c args w = (ok out, w')
    /\ (reachable (book w) -> reachable (book w')).
Proof.
  destruct (handlers_outcome args (book w))
    as ((m1 & b1 & E1 & _) & (m2 & b2 & E2 & _) & (m3 & b3 & E3 & _)
        & (v4 & E4) & (v5 & E5)).
  pose proof (handler_reachable args (book w)) as Hr.
  unfold Cli.dispatch.
  repeat match goal with
  | |- context [if String.eqb ?a ?b then _ else _] => destruct (String.eqb a b)
  end.
  - eexists _, _. split; [reflexivity|auto].
  - rewrite (print_value_on_book _ _ _ _ _ E1). eexists _, _.
    split; [reflexivity|]. intros H. apply Hr in H as (H & _).
    rewrite E1 in H. exact H.
  - rewrite (print_value_on_book _ _ _ _ _ E2). eexists _, _.
    split; [reflexivity|]. intros H. apply Hr in H as (_ & H & _).
    rewrite E2 in H. exact H.
  - rewrite (print_value_on_book _ _ _ _ _ E4). eexists _, _.
    split; [reflexivity|]. auto.
  - eexists _, _. split; [reflexivity|auto].
  - rewrite (print_value_on_book _ _ _ _ _ E3). eexists _, _.
    split; [reflexivity|]. intros H. apply Hr in H as (_ & _ & H & _).
    rewrite E3 in H. exact H.
  - rewrite (print_value_on_book _ _ _ _ _ E5). eexists _, _.
    split; [reflexivity|]. auto.
  - unfold bind. rewrite get_birthdays_per_week_spec.
    unfold ok, datetime_today, ret. cbv beta iota.
    eexists _, _. split; [reflexivity|]. intros H. exact H.
  - eexists _, _. split; [reflexivity|auto].
Qed.

Lemma loop_reachable inputs : forall w,
  reachable (book w) -> reachable (book (Cli.loop clock inputs w).1.2).
Proof.
  induction inputs as [|line inputs IH]; intros w Hw; simpl; [exact Hw|].
  destruct (Cli.parse_input line) as [e|[c args]]; [exact Hw|].
  destruct (_ || _); [exact Hw|].
  destruct (dispatch_outcome c args w) as (out & w' & -> & Hr).
  specialize (IH w' (Hr Hw)).
  destruct (Cli.loop clock inputs w') as [[out' w''] e]. exact IH.
Qed.


Lemma loop_prefix l1 l2 : forall w out w' e,
  Cli.loop clock l1 w = (out, w', e) -> e <> Cli.EndOfInput ->
  Cli.loop clock (l1 ++ l2) w = (out, w', e).
Proof.
  induction l1 as [|line l1 IH]; intros w out w' e; simpl.
  - intros [= <- <- <-] H. congruence.
  - destruct (Cli.parse_input line) as [e0|[c args]]; [auto|].
    destruct (_ || _); [auto|].
    destruct (Cli.dispatch clock c args w) as [[e1|o1] w1]; [auto|].
    destruct (Cli.loop clock l1 w1) as [[o2 w2] e2] eqn:El.
    intros [= <- <- <-] Hne. rewrite (IH w1 o2 w2 e2 El Hne). reflexivity.
Qed.

End LoopFacts.

Section InvariantFacts.

Lemma phones_ok_set b k r :
  phones_ok b -> Phone (phone r) = ok (phone r) -> phones_ok (Dict.set k r b).
Proof.
  intros Hb Hr k0 r0 Hin. apply elem_set in Hin as [[-> ->]|Hin]; [exact Hr|].
  eapply Hb, Hin.
Qed.

Lemma phones_ok_on_record b n f :
  phones_ok b ->
  (forall r, Phone (phone r) = ok (phone r) ->
             Phone (phone (f r).2) = ok (phone (f r).2)) ->
  phones_ok (AddressBook.on_record n f b).2.
Proof.
  intros Hb Hf. rewrite on_record_cases.
  destruct (Dict.get n b) as [r|] eqn:E; simpl; [|exact Hb].
  apply phones_ok_set; [exact Hb|]. apply Hf.
  eapply Hb, get_Some_elem, E.
Qed.

Lemma reachable_phones_ok b : reachable b -> phones_ok b.
Proof.
  induction 1 as [|b n p r _ IH Hr|b n _ IH|b n p _ IH|b n s _ IH].
  - intros k r H. inversion H.
  - simpl. apply phones_ok_set; [exact IH|].
    rewrite Record_init_cases in Hr. destruct (Phone p) eqn:E; [discriminate|].
    apply ok_inj in Hr. subst r. simpl. apply Phone_ok in E as (_ & Hl & Hd).
    apply Phone_accepts; assumption.
  - unfold AddressBook.delete. destruct (Dict.get n b); simpl; [|exact IH].
    intros k r Hin. eapply IH, elem_remove, Hin.
  - apply phones_ok_on_record; [exact IH|]. intros r Hr.
    rewrite update_phone_cases. destruct (Phone p) eqn:E; simpl; [exact Hr|].
    apply Phone_ok in E as (_ & Hl & Hd). apply Phone_accepts; assumption.
  - apply phones_ok_on_record; [exact IH|]. intros r Hr.
    rewrite add_birthday_cases. destruct (Strptime.strptime s); exact Hr.
Qed.

End InvariantFacts.

(** X13: [parse_input] raises ValueError exactly on a line without a word,
    that is an empty line or one of white space only; [main] does not
    catch it, so on such a line the loop writes its prompt and the program
    ends with that exception, whatever lines follow. *)
Theorem blank_line_ends_the_program line :
  (Cli.parse_input line = raise ValueError
   <-> PyStr.all_chars PyText.isspace line = true)
  /\ (PyStr.all_chars PyText.isspace line = true ->
      forall clock rest w,
        Cli.loop clock (line :: rest) w
        = ([Cli.Prompt "Enter a command: "], w, Cli.Uncaught ValueError)).
Proof.
  assert (Hiff : Cli.parse_input line = raise ValueError
                 <-> PyStr.all_chars PyText.isspace line = true).
  { unfold Cli.parse_input, PyText.split.
    pose proof (split_from_nil EmptyString line) as Hs.
    destruct (PyText.split_from EmptyString line) as [|t ts].
    - split; [intros _; apply Hs; reflexivity|reflexivity].
    - split; [discriminate|]. intros H.
      assert (t :: ts = []) by (apply Hs; auto). discriminate. }
  split; [exact Hiff|].
  intros Hb clock rest w. simpl. apply Hiff in Hb. rewrite Hb. reflexivity.
Qed.

(** X14: what [parse_input] returns are the words of the line: the
    command is the first word in small letters (stripping it changes
    nothing), it is not empty, and the arguments are the other words, none
    of them empty and none with white space in it. *)
Theorem parse_input_gives_words s c args :
  Cli.parse_input s = ok (c, args) ->
  (exists w, PyText.split s = w :: args /\ c = PyText.lower w)
  /\ c <> EmptyString
  /\ Forall (fun t => t <> EmptyString /\ solid t = true) args.
Proof.
  unfold Cli.parse_input. intros H.
  destruct (PyText.split s) as [|w ts] eqn:Es; [discriminate|].
  apply ok_inj in H. injection H as <- <-.
  assert (Hw : forall t, t ∈ w :: ts -> t <> EmptyString /\ solid t = true).
  { intros t Ht. rewrite <- Es in Ht.
    apply (split_from_tokens s EmptyString t eq_refl Ht). }
  destruct (Hw w ltac:(apply list_elem_of_here)) as [Hne Hs].
  rewrite (strip_solid w Hs). split; [eauto|]. split.
  - destruct w; [congruence|discriminate].
  - apply Forall_forall. intros t Ht. apply Hw, list_elem_of_further, Ht.
Qed.

(** X15: a command line made of words joined by single blanks is parsed
    into those words, the command in small letters and the arguments as
    typed. *)
Theorem parse_input_of_joined_words cmd args :
  Forall (fun t => t <> EmptyString /\ solid t = true) (cmd :: args) ->
  Cli.parse_input (PyText.join " " (cmd :: args))
  = ok (PyText.lower cmd, args).
Proof.
  intros H. unfold Cli.parse_input. rewrite (split_join _ H).
  apply Forall_cons in H as [[_ Hc] _].
  rewrite (strip_solid cmd Hc). reflexivity.
Qed.

(** X16: whatever lines are typed and whatever the clock shows, the book
    [main] ends with has distinct keys, and each record is filed under its
    own name, has a phone that [Phone] accepts and, if it has a birthday,
    a date of the calendar. *)
Theorem main_keeps_the_book_in_order clock inputs :
  let b := Query.book (Cli.main clock inputs).1.2 in
  NoDup (Dict.keys b)
  /\ forall k r, (k, r) ∈ b ->
       name r = k
       /\ Phone (phone r) = ok (phone r)
       /\ forall d, birthday r = Some d -> Datetime.date_valid d.
Proof.
  assert (Hr : reachable (Query.book (Cli.main clock inputs).1.2)).
  { unfold Cli.main.
    pose proof (loop_reachable clock inputs
                  (Query.mkWorld AddressBook.empty 0) reach_empty) as H.
    destruct (Cli.loop clock inputs _) as [[out w] e]. exact H. }
  pose proof (reachable_book_ok _ Hr) as [Hnd Hall].
  pose proof (reachable_phones_ok _ Hr) as Hph.
  split; [exact Hnd|]. intros k r Hin. destruct (Hall k r Hin) as [Hn Hd].
  split; [exact Hn|]. split; [eapply Hph, Hin|exact Hd].
Qed.

(** X17: once the loop has ended, by [close] or [exit] or by an
    exception, no later line is read: more lines after those that ended it
    change neither what is written, nor the book, nor the ending. *)
Theorem nothing_is_read_after_the_end clock l1 l2 w out w' e :
  Cli.loop clock l1 w = (out, w', e) -> e <> Cli.EndOfInput ->
  Cli.loop clock (l1 ++ l2) w = (out, w', e).
Proof. apply loop_prefix. Qed.


(** ** What the [birthdays] and [all] commands write *)

Section OutputFacts.
Import Query.

Lemma birthday_lines_S n wd ub :
  Cli.birthday_lines (S n) wd ub
  = bucket_line ub ((wd + 1) mod 7)
    ++ Cli.birthday_lines n ((wd + 1) mod 7) ub.
Proof.
  unfold bucket_line. simpl. destruct (ub !! ((wd + 1) mod 7)); reflexivity.
Qed.

(** The seven rounds visit the seven weekdays, tomorrow's first. *)
Lemma birthday_lines_week wd ub :
  Cli.birthday_lines 7 wd ub
  = bucket_line ub ((wd + 1) mod 7) ++ bucket_line ub ((wd + 2) mod 7)
    ++ bucket_line ub ((wd + 3) mod 7) ++ bucket_line ub ((wd + 4) mod 7)
    ++ bucket_line ub ((wd + 5) mod 7) ++ bucket_line ub ((wd + 6) mod 7)
    ++ bucket_line ub ((wd + 7) mod 7).
Proof.
  rewrite !birthday_lines_S. simpl Cli.birthday_lines. rewrite app_nil_r.
  assert (E : forall x k, ((x + k) mod 7 + 1) mod 7 = (x + (k + 1)) mod 7)
    by (intros; Z.div_mod_to_equations; lia).
  rewrite !E. reflexivity.
Qed.

Lemma elem_of_bucket_line ub wd e :
  e ∈ bucket_line ub wd
  <-> exists names,
        ub !! wd = Some names
        /\ e = Cli.Print
                 (Cli.day_name wd ++ ": " ++ PyText.join ", " names)%string.
Proof.
  unfold bucket_line. destruct (ub !! wd) as [names|].
  - rewrite list_elem_of_singleton. split.
    + intros ->. eauto.
    + intros (names' & [= <-] & ->). reflexivity.
  - split; [intros H; inversion H|intros (? & ? & _); discriminate].
Qed.

Lemma length_bucket_line ub wd :
  length (bucket_line ub wd)
  = if bool_decide (is_Some (ub !! wd)) then 1%nat else 0%nat.
Proof.
  unfold bucket_line. destruct (ub !! wd).
  - rewrite bool_decide_eq_true_2 by eauto. reflexivity.
  - rewrite bool_decide_eq_false_2; [reflexivity|]. intros [? ?]. discriminate.
Qed.

Lemma week_lines_elem wd0 ub e :
  0 <= wd0 < 7 ->
  e ∈ Cli.birthday_lines 7 wd0 ub
  <-> exists wd, 0 <= wd <= 6 /\ e ∈ bucket_line ub wd.
Proof.
  intros Hwd. rewrite birthday_lines_week, !elem_of_app.
  assert (Hc : wd0 = 0 \/ wd0 = 1 \/ wd0 = 2 \/ wd0 = 3 \/ wd0 = 4
               \/ wd0 = 5 \/ wd0 = 6) by lia.
  split.
  - intros H.
    repeat (destruct H as [H|H];
            [eexists; split; [|exact H]; Z.div_mod_to_equations; lia|]).
    eexists; split; [|exact H]; Z.div_mod_to_equations; lia.
  - intros (wd & Hr & H).
    assert (Hw : wd = 0 \/ wd = 1 \/ wd = 2 \/ wd = 3 \/ wd = 4
                 \/ wd = 5 \/ wd = 6) by lia.
    destruct Hc as [->|[->|[->|[->|[->|[->| ->]]]]]];
      destruct Hw as [->|[->|[->|[->|[->|[->| ->]]]]]];
      change (bucket_line ub ?x) with (bucket_line ub x) in *;
      cbn [Z.add Z.modulo] in *; tauto.
Qed.

Lemma week_lines_length wd0 ub :
  0 <= wd0 < 7 ->
  length (Cli.birthday_lines 7 wd0 ub)
  = length (List.filter (fun wd => bool_decide (is_Some (ub !! wd)))
              [0; 1; 2; 3; 4; 5; 6]).
Proof.
  intros Hwd. rewrite birthday_lines_week, !List.length_app, !length_bucket_line.
  assert (Hc : wd0 = 0 \/ wd0 = 1 \/ wd0 = 2 \/ wd0 = 3 \/ wd0 = 4
               \/ wd0 = 5 \/ wd0 = 6) by lia.
  set (p := fun wd => bool_decide (is_Some (ub !! wd))).
  assert (Hf : length (List.filter p [0; 1; 2; 3; 4; 5; 6])
               = ((if p 0%Z then 1 else 0) + (if p 1%Z then 1 else 0)
                  + (if p 2%Z then 1 else 0) + (if p 3%Z then 1 else 0)
                  + (if p 4%Z then 1 else 0) + (if p 5%Z then 1 else 0)
                  + (if p 6%Z then 1 else 0))%nat).
  { cbn [List.filter].
    destruct (p 0), (p 1), (p 2), (p 3), (p 4), (p 5), (p 6); reflexivity. }
  rewrite Hf. clear Hf.
  repeat match goal with
  | |- context [bool_decide (is_Some (ub !! ?x))] =>
      change (bool_decide (is_Some (ub !! x))) with (p x)
  end.
  clearbody p.
  destruct Hc as [->|[->|[->|[->|[->|[->| ->]]]]]];
    repeat match goal with
    | |- context [(?a + ?b) mod 7] =>
        let v := eval vm_compute in ((a + b) mod 7) in
        change ((a + b) mod 7) with v
    end; lia.
Qed.

End OutputFacts.

Section CommandOutput.
Import Query.
Variable clock : nat -> Datetime.date.

Lemma dispatch_birthdays args w :
  Cli.dispatch clock "birthdays" args w
  = (ok (Cli.birthday_lines 7
           (Datetime.weekday (clock (clock_reads w + readings (book w))%nat))
           (QuerySpec.upcoming clock (clock_reads w) (book w) ∅)),
     mkWorld (book w) (S (clock_reads w + readings (book w)))).
Proof.
  unfold Cli.dispatch.
  repeat match goal with
  | |- context [String.eqb ?a ?b] =>
      let v := eval vm_compute in (String.eqb a b) in
      change (String.eqb a b) with v
  end.
  cbv beta iota. unfold bind. rewrite get_birthdays_per_week_spec.
  reflexivity.
Qed.





End CommandOutput.

(** X19: whatever weekday the clock shows, the [birthdays] command never
    raises and writes one line for each weekday that is a key of the
    query's buckets, each such weekday once and nothing else; the lines are
    for Monday to Friday only. *)
Theorem birthdays_command_writes_each_bucket_once clock args w :
  exists ub out w',
    (Query.get_birthdays_per_week clock w).1 = ok ub
    /\ Cli.dispatch clock "birthdays" args w = (ok out, w')
    /\ Query.book w' = Query.book w
    /\ (forall e, e ∈ out <->
          exists wd names,
            0 <= wd <= 4 /\ ub !! wd = Some names
            /\ e = Cli.Print
                     (Cli.day_name wd ++ ": " ++ PyText.join ", " names)%string)
    /\ length out
       = length (List.filter (fun wd => bool_decide (is_Some (ub !! wd)))
                   [0; 1; 2; 3; 4; 5; 6]).
Proof.
  eexists _, _, _. split; [apply query_result|].
  split; [apply dispatch_birthdays|]. split; [reflexivity|].
  pose proof (weekday_range
                (clock (Query.clock_reads w + Query.readings (Query.book w))%nat))
    as Hwd.
  pose proof (upcoming_buckets_ok clock (Query.book w) (Query.clock_reads w) ∅)
    as Hok.
  assert (Hub : buckets_ok
                  (QuerySpec.upcoming clock (Query.clock_reads w)
                     (Query.book w) ∅)).
  { apply Hok. intros wd names H. rewrite lookup_empty in H. discriminate. }
  split; [|apply week_lines_length, Hwd].
  intros e. rewrite (week_lines_elem _ _ e Hwd). split.
  - intros (wd & _ & He). apply elem_of_bucket_line in He as (names & Hl & ->).
    exists wd, names. destruct (Hub wd names Hl) as [Hr _]. auto.
  - intros (wd & names & Hr & Hl & ->). exists wd. split; [lia|].
    apply elem_of_bucket_line. eauto.
Qed.


(** ** More theorems on the small address book *)

(** Ann is reported under Monday on Monday 10 June 2024. *)
Lemma reported_exactly_when_in_window_witness :
  "Ann" ∈ Query.bucket
            (QuerySpec.upcoming Scenario.noon 0 Scenario.book0 ∅) 0.
Proof.
  apply (reported_exactly_when_in_window Scenario.noon Scenario.w0 0 "Ann"
           Scenario.ann 0).
  - apply (bool_decide_unpack _). vm_compute. reflexivity.
  - reflexivity.
  - apply query_result.
  - exists (Datetime.mkdate 1990 6 15), (Datetime.mkdate 2024 6 15),
      (Datetime.mkdate 2024 6 17).
    repeat split; vm_compute; congruence.
Defined.

(** Ann again: congratulated 7 days after Monday 10 June 2024. *)
Lemma reported_is_in_next_seven_days_witness :
  exists i r b nb dtc,
    Query.book Scenario.w0 !! i = Some ("Ann"%string, r) /\ birthday r = Some b
    /\ let today :=
         Scenario.noon (Query.clock_reads Scenario.w0
                        + Query.readings (take i (Query.book Scenario.w0)))%nat in
       Query.next_birthday today b = ok nb
       /\ Query.date_to_congratulate nb = ok dtc
       /\ 1 <= Datetime.sub_days dtc today <= 7
       /\ 0 = Datetime.weekday dtc
       /\ 0 = (Datetime.weekday today + Datetime.sub_days dtc today) mod 7.
Proof.
  apply (reported_is_in_next_seven_days Scenario.noon Scenario.w0
           (QuerySpec.upcoming Scenario.noon 0 Scenario.book0 ∅) 0 "Ann").
  - intros k. reflexivity.
  - apply query_result.
  - vm_compute. apply list_elem_of_here.
Defined.

Lemma delete_removes_one_entry_witness :
  AddressBook.find "Bob" (AddressBook.delete "Bob" Scenario.book0).2
  = raise KeyError.
Proof.
  apply (delete_removes_one_entry Scenario.book0 "Bob").
  - apply (bool_decide_unpack _). vm_compute. reflexivity.
  - apply (bool_decide_unpack _). vm_compute. reflexivity.
Defined.

Lemma add_then_delete_restores_witness :
  AddressBook.delete "Zed"
    (AddressBook.add_record (mkRecord "Zed" "0500000000" None)
       Scenario.book0).2
  = (ok tt, Scenario.book0).
Proof.
  apply (add_then_delete_restores Scenario.book0
           (mkRecord "Zed" "0500000000" None)).
  apply (bool_decide_unpack _). vm_compute. reflexivity.
Defined.

Lemma add_record_keeps_the_rest_witness :
  AddressBook.find "Bob"
    (AddressBook.add_record (mkRecord "Ann" "0500000000" None)
       Scenario.book0).2
  = AddressBook.find "Bob" Scenario.book0.
Proof.
  apply (add_record_keeps_the_rest Scenario.book0
           (mkRecord "Ann" "0500000000" None) "Bob").
  simpl. discriminate.
Defined.

(** Adding Ann again, who has a birthday in the book. *)
Lemma add_contact_files_a_new_record_witness :
  let b1 := (Cli.add_contact ["Ann"; "0500000000"]%string Scenario.book0).2 in
  Cli.show_birthday ["Ann"%string] b1 = (ok Cli.VNone, b1).
Proof.
  apply (add_contact_files_a_new_record "Ann" "0500000000" Scenario.book0).
  reflexivity.
Defined.

Lemma change_contact_keeps_birthday_witness :
  AddressBook.find "Ann"
    (Cli.change_contact ["Ann"; "0500000000"]%string Scenario.book0).2
  = ok (mkRecord "Ann" "0500000000" (Some (Datetime.mkdate 1990 6 15))).
Proof.
  apply (change_contact_keeps_birthday "Ann" "0500000000" Scenario.book0
           Scenario.ann); reflexivity.
Defined.

(** Zed is not in the book, and 12 is no phone. *)
Lemma missing_contact_is_reported_first_witness :
  Cli.change_contact ["Zed"; "12"]%string Scenario.book0
  = (ok (Cli.VStr "A contact with that name doesn't exist."), Scenario.book0).
Proof.
  apply (missing_contact_is_reported_first "Zed" "12" Scenario.book0).
  apply (bool_decide_unpack _). vm_compute. reflexivity.
Defined.

Lemma birthday_added_is_shown_witness :
  let b1 := (Cli.add_birthday ["Eve"; "17.03.1990"]%string Scenario.book0).2 in
  Cli.show_birthday ["Eve"%string] b1
  = (ok (Cli.VDate (Datetime.mkdate 1990 3 17)), b1).
Proof.
  apply (birthday_added_is_shown "Eve" (Datetime.mkdate 1990 3 17)
           Scenario.book0 Scenario.eve); reflexivity.
Defined.

Lemma parse_input_gives_words_witness :
  (exists w, PyText.split "  ADD   Ann 0501234567 " = w :: ["Ann"; "0501234567"]%string
             /\ "add"%string = PyText.lower w)
  /\ "add"%string <> EmptyString
  /\ Forall (fun t => t <> EmptyString /\ solid t = true)
       ["Ann"; "0501234567"]%string.
Proof.
  apply (parse_input_gives_words "  ADD   Ann 0501234567 " "add"
           ["Ann"; "0501234567"]%string).
  reflexivity.
Defined.

Lemma parse_input_of_joined_words_witness :
  Cli.parse_input "ADD Ann 0501234567"
  = ok ("add"%string, ["Ann"; "0501234567"]%string).
Proof.
  apply (parse_input_of_joined_words "ADD" ["Ann"; "0501234567"]%string).
  repeat constructor; discriminate.
Defined.

(** After [exit] the line [add Ann 0501234567] is not read. *)
Lemma nothing_is_read_after_the_end_witness :
  Cli.loop Scenario.noon
    (["hello"%string; "exit"%string] ++ ["add Ann 0501234567"%string])
    (Query.mkWorld AddressBook.empty 0)
  = ([Cli.Prompt "Enter a command: "; Cli.Print "How can I help you?";
      Cli.Prompt "Enter a command: "; Cli.Print "Good bye!"],
     Query.mkWorld AddressBook.empty 0, Cli.Returned).
Proof.
  apply (nothing_is_read_after_the_end Scenario.noon
           ["hello"; "exit"]%string ["add Ann 0501234567"%string]).
  - reflexivity.
  - discriminate.
Defined.


(** ** The strings the date parser reads *)

Section ParserInversion.
Import Datetime Re Strptime DateString DateForms.
Local Open Scope string_scope.




















Local Arguments consumed : simpl never.










End ParserInversion.


